(** * Transformer layer stack of onmt/modules/Transformer.py

    A shallow embedding of the decoder stack, the decoder layer and the
    decoder state of [onmt/modules/Transformer.py], with the properties
    of the wiring that the specification states.

    Tensors are nested lists in the layout the code uses at each point
    (length x batch x features for tokens, batch x length x channels inside
    the layers).  The numeric kernels the file imports (multi-head
    attention, layer normalisation, the feed-forward block, the embedding
    table, dropout) are fields of records: the file only wires them. *)

From stdpp Require Import gmap strings list fin_maps.
From Stdlib Require Import ZArith Lia Ascii.

Open Scope Z_scope.
Open Scope nat_scope.

(** ** Exceptions and results *)

Inductive exn : Type :=
| AssertionError
| RuntimeError
| NameError (name : string)
| IndexError
| TypeError
| AttributeError.

Inductive result (A : Type) : Type :=
| Ok (a : A)
| Raise (e : exn).
Arguments Ok {A} a.
Arguments Raise {A} e.

Definition is_ok {A} (r : result A) : bool :=
  match r with Ok _ => true | Raise _ => false end.

Definition rbind {A B} (r : result A) (k : A -> result B) : result B :=
  match r with Ok a => k a | Raise e => Raise e end.

(** ** Tensors *)

(** A target or source token: the word index (feature 0) and the optional
    further features; [t[:, :, 0]] reads [word]. *)
Record token : Type := Token { word : Z; feats : list Z }.

(** len x batch tokens (each with its features). *)
Abbreviation tokens := (list (list token)).

(** [t.size()] on the first two axes. *)
Definition size0 {A} (t : list A) : nat := length t.
Definition size1 {A} (t : list (list A)) : nat := length (hd [] t).

(** Every row has [n] entries. *)
Definition rect {A} (n : nat) (t : list (list A)) : Prop :=
  Forall (fun row => length row = n) t.

(** [t.transpose(0, 1)] *)
Definition column {A} (j : nat) (t : list (list A)) : list A :=
  flat_map (fun row => option_list (row !! j)) t.

Definition transpose01 {A} (t : list (list A)) : list (list A) :=
  map (fun j => column j t) (seq 0 (size1 t)).

(** [t[:, :, 0]] *)
Definition select_word (t : tokens) : list (list Z) := map (map word) t.

(** The size of the feature axis of a token tensor. *)
Definition nfeat (t : tokens) : nat :=
  match t with
  | (tok :: _) :: _ => S (length (feats tok))
  | _ => 0
  end.

(** [torch.cat([a, b], 0)]: the sizes of the other axes must agree. *)
Definition cat0 (a b : tokens) : result tokens :=
  if decide (size1 a = size1 b /\ nfeat a = nfeat b)
  then Ok (a ++ b) else Raise RuntimeError.

(** [t.repeat(1, k, 1)] on a len x batch x _ tensor: the batch axis is
    tiled [k] times. *)
Definition tile {A} (k : nat) (row : list A) : list A :=
  concat (replicate k row).

Definition repeat1 {A} (k : nat) (t : list (list A)) : list (list A) :=
  map (tile k) t.

(** ** Decoder state *)

Section State.
  (** The scalar type of activations (floating point in the code). *)
Variable R : Type.

  (** batch x length x channels *)
Abbreviation act3 := (list (list (list R))).

Record TransformerDecoderState : Type := mkState {
    src : tokens;
    previous_input : option tokens;
    previous_layer_inputs : option (list act3)
  }.

  (** Objects a [state] argument can refer to: an instance of
      [TransformerDecoderState] or of another class. *)
Inductive pyobj : Type :=
  | TDS (s : TransformerDecoderState)
  | OtherObject.

Definition fresh_loc (h : gmap nat pyobj) : nat := fresh (dom h).

  (** [TransformerDecoderState.__init__] *)
Definition init_state (src0 : tokens) : TransformerDecoderState :=
    {| src := src0; previous_input := None; previous_layer_inputs := None |}.

  (** [TransformerDecoderState.update_state]: allocates a new object. *)
Definition update_state (self : nat) (input : tokens)
      (layer_inputs : list act3) (h : gmap nat pyobj)
    : result (nat * gmap nat pyobj) :=
    match h !! self with
    | Some (TDS s) =>
        let state := init_state (src s) in
        let state := {| src := src state;
                        previous_input := Some input;
                        previous_layer_inputs := previous_layer_inputs state |} in
        let state := {| src := src state;
                        previous_input := previous_input state;
                        previous_layer_inputs := Some layer_inputs |} in
        let l := fresh_loc h in
        Ok (l, <[l := TDS state]> h)
    | _ => Raise AttributeError
    end.

  (** [TransformerDecoderState.repeat_beam_size_times]: assigns [self.src]. *)
Definition repeat_beam_size_times (self : nat) (beam_size : nat)
      (h : gmap nat pyobj) : result (gmap nat pyobj) :=
    match h !! self with
    | Some (TDS s) =>
        Ok (<[self := TDS {| src := repeat1 beam_size (src s);
                             previous_input := previous_input s;
                             previous_layer_inputs := previous_layer_inputs s |}]> h)
    | _ => Raise AttributeError
    end.
End State.

Arguments mkState {R}.
Arguments src {R}.
Arguments previous_input {R}.
Arguments previous_layer_inputs {R}.
Arguments TDS {R}.
Arguments OtherObject {R}.
Arguments init_state {R}.
Arguments update_state {R}.
Arguments repeat_beam_size_times {R}.
Arguments fresh_loc {R}.

(** ** Attention bias *)

Definition neg_inf : Z := (-1000000000)%Z.

(** [words.data.eq(padding_idx).float()] *)
Definition eq_pad (padding_idx : Z) (words : list (list Z)) : list (list Z) :=
  map (map (fun w => if decide (w = padding_idx) then 1%Z else 0%Z)) words.

(** Modelled from the spec: [attention.get_local_mask] is imported from a
    module that is not part of this file.  The spec calls its result the
    local/causal mask, disallowing "future positions in causal decoding";
    the call site gives its shape, [[1, length, length]].  Entry [i][j] is 1
    when key position [j] lies after query position [i], else 0. *)
Definition get_local_mask (length : nat) : list (list (list Z)) :=
  [ map (fun i => map (fun j => if decide (i < j) then 1%Z else 0%Z) (seq 0 length))
        (seq 0 length) ].

(** Elementwise operations on 3-d masks. *)
Definition map3 {A B} (f : A -> B) (t : list (list (list A))) : list (list (list B)) :=
  map (map (map f)) t.

Definition zip3 {A B C} (f : A -> B -> C)
    (a : list (list (list A))) (b : list (list (list B))) : list (list (list C)) :=
  zip_with (zip_with (zip_with f)) a b.

(** [torch.unsqueeze(t, 1)] on a 2-d tensor. *)
Definition unsqueeze1 {A} (t : list (list A)) : list (list (list A)) :=
  map (fun row => [row]) t.

(** [src_pad_mask * -1e9], unsqueezed: lines 229 and 232. *)
Definition encoder_decoder_bias_of (padding_idx : Z) (src_words : list (list Z))
  : list (list (list Z)) :=
  unsqueeze1 (map (map (fun m => (m * neg_inf)%Z)) (eq_pad padding_idx src_words)).

(** Lines 230-235. *)
Definition decoder_bias_of (padding_idx : Z) (tgt_words : list (list Z))
    (tgt_batch tgt_len : nat) : list (list (list Z)) :=
  let tgt_pad_mask := unsqueeze1 (eq_pad padding_idx tgt_words) in
  let tgt_pad_mask := repeat1 tgt_len tgt_pad_mask in
  let decoder_local_mask := get_local_mask tgt_len in
  let decoder_local_mask := tile tgt_batch decoder_local_mask in
  map3 (fun v => ((if decide (0 < v)%Z then 1 else 0) * neg_inf)%Z)
       (zip3 Z.add tgt_pad_mask decoder_local_mask).

(** Modelled from the spec: [onmt.Utils.aeq] is imported from a module that
    is not part of this file.  The spec describes the calls as "explicit
    batch/length equality checks" that "fail fast (assertion)": the call
    raises unless every argument equals the first. *)
Definition aeq (args : list nat) : result unit :=
  match args with
  | [] => Ok tt
  | a :: rest => if forallb (Nat.eqb a) rest then Ok tt else Raise AssertionError
  end.

(** ** Biased attention *)

(** The bias row of query [r] in batch entry [b]: a bias with one row per
    batch entry is broadcast over the queries; no bias allows every key. *)
Definition bias_row (bias : option (list (list (list Z)))) (b r klen : nat)
  : list Z :=
  match bias with
  | None => replicate klen 0%Z
  | Some bs =>
      match bs !! b with
      | Some [row] => row
      | Some rows => default [] (rows !! r)
      | None => []
      end
  end.

Arguments bias_row : simpl never.

(** The keys a bias row allows. *)
Fixpoint allowed {A} (keys : list A) (brow : list Z) : list A :=
  match keys, brow with
  | k :: keys', v :: brow' =>
      if decide (v = 0%Z) then k :: allowed keys' brow' else allowed keys' brow'
  | _, _ => []
  end.

(** ** Layers *)

Section Layers.
Variable R : Type.
  (** Floating-point addition, for the residual connections. *)
Variable fadd : R -> R -> R.

Abbreviation act3 := (list (list (list R))).
Abbreviation bias3 := (list (list (list Z))).

Definition size2 {A} (t : list (list (list A))) : nat := length (hd [] (hd [] t)).

  (** [a + b] on tensors of one shape. *)
Definition tadd (a b : act3) : act3 := zip3 fadd a b.

  (** [torch.cat((a, b), dim=1)] on batch x length x channels tensors. *)
Definition cat1 (a b : act3) : result act3 :=
    if decide (size0 a = size0 b /\ size2 a = size2 b)
    then Ok (zip_with app a b) else Raise RuntimeError.

  (** [torch.stack(ts)]: needs a non-empty list of tensors of one shape. *)
Definition shape3 (t : act3) : nat * nat * nat := (size0 t, size1 t, size2 t).

Definition stack (ts : list act3) : result (list act3) :=
    match ts with
    | [] => Raise RuntimeError
    | t :: rest =>
        if forallb (fun u => bool_decide (shape3 u = shape3 t)) rest
        then Ok ts else Raise RuntimeError
    end.

  (** [attention.MultiheadAttention]: query, memory (or None), number of
      heads, bias (or None); returns the context and the attention weights. *)
Definition MultiheadAttention : Type :=
    act3 -> option act3 -> nat -> option bias3 -> act3 * act3.

  (** [class DecoderLayer] *)
Record DecoderLayer : Type := mkDecoderLayer {
    num_heads : nat;
    ma_l1 : MultiheadAttention;
    ma_l2 : MultiheadAttention;
    ffn : act3 -> act3;
    ma_l1_prenorm : act3 -> act3;
    ma_l2_prenorm : act3 -> act3;
    ffn_prenorm : act3 -> act3;
    ma_l1_postdropout : act3 -> act3;
    ma_l2_postdropout : act3 -> act3;
    ffn_postdropout : act3 -> act3
  }.

  (** One call of an attention module, as the layer issues it. *)
Inductive attn_module : Type := MA_L1 | MA_L2.

Record attn_call : Type := mkCall {
    callee : attn_module;
    query : act3;
    memory : option act3;
    heads : nat;
    bias : option bias3
  }.

  (** Lines 110-113: the key/value set and the bias of the self-attention. *)
Definition self_attention_inputs (norm_x : act3) (self_attention_bias : bias3)
      (previous_input : option act3) : result (act3 * option bias3) :=
    match previous_input with
    | Some p => rbind (cat1 p norm_x) (fun all_inputs => Ok (all_inputs, None))
    | None => Ok (norm_x, Some self_attention_bias)
    end.

  (** The query of the cross-attention: the normalised sum of the input and
    of the self-attention context. *)
Definition cross_query (self : DecoderLayer) (x all_inputs : list (list (list R)))
    (self_bias : option (list (list (list Z)))) : list (list (list R)) :=
  let norm_x := ma_l1_prenorm self x in
  let y := fst (ma_l1 self norm_x (Some all_inputs) (num_heads self) self_bias) in
  ma_l2_prenorm self (tadd (ma_l1_postdropout self y) x).

(** Shape contracts of the imported kernels: normalisation, feed-forward
    and dropout return a tensor of the shape of their argument, attention a
    context of the shape of its query. *)
Definition keeps_dims (f : act3 -> act3) : Prop :=
  forall x, map length (f x) = map length x.

Definition attn_keeps_dims (ma : MultiheadAttention) : Prop :=
  forall q m h b, map length (fst (ma q m h b)) = map length q.

Record layer_keeps_dims (self : DecoderLayer) : Prop := {
  kd_ma_l1 : attn_keeps_dims (ma_l1 self);
  kd_ma_l2 : attn_keeps_dims (ma_l2 self);
  kd_ffn : keeps_dims (ffn self);
  kd_ma_l1_prenorm : keeps_dims (ma_l1_prenorm self);
  kd_ma_l2_prenorm : keeps_dims (ma_l2_prenorm self);
  kd_ffn_prenorm : keeps_dims (ffn_prenorm self);
  kd_ma_l1_postdropout : keeps_dims (ma_l1_postdropout self);
  kd_ma_l2_postdropout : keeps_dims (ma_l2_postdropout self);
  kd_ffn_postdropout : keeps_dims (ffn_postdropout self)
}.

(** [DecoderLayer.forward], with the attention calls it makes. *)
Definition DecoderLayer_run (self : DecoderLayer) (x encoder_output : act3)
      (self_attention_bias encoder_decoder_bias : bias3)
      (previous_input : option act3)
    : result (act3 * act3 * act3 * list attn_call) :=
    let norm_x := ma_l1_prenorm self x in
    rbind (self_attention_inputs norm_x self_attention_bias previous_input)
      (fun '(all_inputs, self_attention_bias) =>
    let call1 := mkCall MA_L1 norm_x (Some all_inputs) (num_heads self)
                        self_attention_bias in
    let y := fst (ma_l1 self norm_x (Some all_inputs) (num_heads self)
                        self_attention_bias) in
    let x := tadd (ma_l1_postdropout self y) x in
    let q2 := ma_l2_prenorm self x in
    let call2 := mkCall MA_L2 q2 (Some encoder_output) (num_heads self)
                        (Some encoder_decoder_bias) in
    let '(y, attn) := ma_l2 self q2 (Some encoder_output) (num_heads self)
                            (Some encoder_decoder_bias) in
    let x := tadd (ma_l2_postdropout self y) x in
    let y := ffn self (ffn_prenorm self x) in
    let ans := tadd (ffn_postdropout self y) x in
    Ok (ans, attn, all_inputs, [call1; call2])).

Definition DecoderLayer_forward (self : DecoderLayer) (x encoder_output : act3)
      (self_attention_bias encoder_decoder_bias : bias3)
      (previous_input : option act3) : result (act3 * act3 * act3) :=
    rbind (DecoderLayer_run self x encoder_output self_attention_bias
             encoder_decoder_bias previous_input)
          (fun '(ans, attn, all_inputs, _) => Ok (ans, attn, all_inputs)).

  (** The embeddings provider: the lookup and its padding index. *)
Record Embeddings : Type := mkEmbeddings {
    emb_call : tokens -> list (list (list R));
    word_padding_idx : Z
  }.

  (** [class TransformerDecoder].  [__init__] builds [layer_stack] with
      [num_layers] layers, so the number of layers is its length.
      [copy_attn] is the attention module [__init__] stores when copy
      attention is requested. *)
Record TransformerDecoder : Type := mkTransformerDecoder {
    embeddings : Embeddings;
    layer_stack : list DecoderLayer;
    _copy : bool;
    copy_attn : option MultiheadAttention;
    layer_norm : act3 -> act3
  }.

Definition num_layers (self : TransformerDecoder) : nat :=
  length (layer_stack self).

(** The decoder with another copy-attention module in its [copy_attn]. *)
Definition with_copy_attn (self : TransformerDecoder)
    (ca : option MultiheadAttention) : TransformerDecoder :=
  {| embeddings := embeddings self;
     layer_stack := layer_stack self;
     _copy := _copy self;
     copy_attn := ca;
     layer_norm := layer_norm self |}.

(** The embeddings return one vector per token. *)
Definition emb_keeps_dims (e : Embeddings) : Prop :=
  forall t, map length (emb_call e t) = map length t.

Record decoder_keeps_dims (self : TransformerDecoder) : Prop := {
  kd_embeddings : emb_keeps_dims (embeddings self);
  kd_layers : Forall layer_keeps_dims (layer_stack self);
  kd_layer_norm : keeps_dims (layer_norm self)
}.
(** *** Contracts of the imported kernels

    What the kernels are assumed to be when the decoder is compared with
    itself on two inputs: normalisation and the feed-forward block act on
    each position by a function of its vector, dropout is disabled, and the
    context an attention returns for a query is a function of that query
    and of the keys its bias allows. *)
Abbreviation vec := (list R).

Record layer_model : Type := mkModel {
  lm_n1 : vec -> vec;
  lm_n2 : vec -> vec;
  lm_n3 : vec -> vec;
  lm_ffn : vec -> vec;
  lm_att1 : vec -> list vec -> vec;
  lm_att2 : vec -> list vec -> vec
}.

Definition pointwise (f : act3 -> act3) (g : vec -> vec) : Prop :=
  forall x, f x = map (map g) x.



(** One position through a layer: its vector [x], the keys [keys] its
    self-attention may use, the encoder positions [cross] its
    cross-attention may use. *)
Definition layer_pos (M : layer_model) (cross : list vec) (x : vec)
    (keys : list vec) : vec :=
  let y := lm_att1 M (lm_n1 M x) keys in
  let x1 := zip_with fadd y x in
  let y := lm_att2 M (lm_n2 M x1) cross in
  let x2 := zip_with fadd y x1 in
  let y := lm_ffn M (lm_n3 M x2) in
  zip_with fadd y x2.

(** Row [r] of the self-attention bias of a batch entry with words
    [words]: lines 230-235 for one query. *)
Definition causal_row (padding_idx : Z) (words : list Z) (r : nat) : list Z :=
  map (fun v => ((if decide (0 < v)%Z then 1 else 0) * neg_inf)%Z)
      (zip_with Z.add
         (map (fun w => if decide (w = padding_idx) then 1%Z else 0%Z) words)
         (map (fun j => if decide (r < j) then 1%Z else 0%Z)
              (seq 0 (length words)))).

(** A layer on the positions of one batch entry, without cache. *)
Definition ref_layer (padding_idx : Z) (words : list Z) (cross : list vec)
    (M : layer_model) (xs : list vec) : list vec :=
  imap (fun r x =>
          layer_pos M cross x
            (allowed (map (lm_n1 M) xs) (causal_row padding_idx words r))) xs.

(** The embeddings give each token a vector that depends on the token and
    on its position. *)
Definition emb_pointwise (e : Embeddings) (ef : nat -> token -> vec) : Prop :=
  forall t, emb_call e t = imap (fun i row => map (ef i) row) t.


(** The encoder positions the cross-attention bias allows for a batch
    entry. *)
Definition cross_of (enc : act3) (eb : bias3) (b : nat) : list vec :=
  allowed (default [] (enc !! b))
    (bias_row (Some eb) b 0 (length (default [] (enc !! b)))).




(** The stack of layers on the positions of one batch entry. *)
Definition ref_stack (padding_idx : Z) (words : list Z) (cross : list vec)
    (Ms : list layer_model) (xs : list vec) : list vec :=
  foldl (fun xs M => ref_layer padding_idx words cross M xs) xs Ms.
End Layers.

(** ** The decoder stack *)

Section Decoder.
Variable R : Type.
Variable fadd : R -> R -> R.

Abbreviation act3 := (list (list (list R))).
Abbreviation bias3 := (list (list (list Z))).

(** The loop variables of lines 237-245: the running output, the last
    attention weights (unbound before the first iteration), the saved
    inputs, and the attention calls issued so far. *)
Abbreviation loop_state :=
  (act3 * option act3 * list act3 * list (attn_call R))%type.

(** Lines 239-241. *)
Definition prev_layer_input_of (s : TransformerDecoderState R) (i : nat)
  : result (option act3) :=
  match previous_input s with
  | Some _ =>
      match previous_layer_inputs s with
      | Some cached =>
          match cached !! i with
          | Some t => Ok (Some t)
          | None => Raise IndexError
          end
      | None => Raise TypeError
      end
  | None => Ok None
  end.

(** One iteration of the loop over the layers. *)
Definition layer_step (s : TransformerDecoderState R)
    (src_memory_bank : act3) (decoder_bias encoder_decoder_bias : bias3)
    (acc : loop_state) (i : nat) (layer : DecoderLayer R) : result loop_state :=
  let '(output, _, saved_inputs, log) := acc in
  rbind (prev_layer_input_of s i) (fun prev_layer_input =>
  rbind (DecoderLayer_run R fadd layer output src_memory_bank decoder_bias
           encoder_decoder_bias prev_layer_input)
        (fun '(output, attn, all_input, calls) =>
  Ok (output, Some attn, saved_inputs ++ [all_input], log ++ calls))).

Fixpoint run_layers (s : TransformerDecoderState R)
    (src_memory_bank : act3) (decoder_bias encoder_decoder_bias : bias3)
    (layers : list (DecoderLayer R)) (i : nat) (acc : loop_state)
  : result loop_state :=
  match layers with
  | [] => Ok acc
  | layer :: rest =>
      rbind (layer_step s src_memory_bank decoder_bias encoder_decoder_bias
               acc i layer)
            (run_layers s src_memory_bank decoder_bias encoder_decoder_bias
               rest (S i))
  end.

(** [src_words.size()], lines 202 and 204. *)
Definition src_batch_of (src0 : tokens) : nat :=
  size0 (transpose01 (select_word src0)).
Definition src_len_of (src0 : tokens) : nat :=
  size1 (transpose01 (select_word src0)).

(** Lines 195-211: the checks, and the history prepended to [tgt]. *)
Definition forward_checks (tgt : tokens) (memory_bank : act3)
    (s : TransformerDecoderState R) : result tokens :=
  let tgt_len := size0 tgt in
  let tgt_batch := size1 tgt in
  let memory_len := size0 memory_bank in
  let memory_batch := size1 memory_bank in
  rbind (aeq [tgt_batch; memory_batch]) (fun _ =>
  let src_words := transpose01 (select_word (src s)) in
  let tgt_words := transpose01 (select_word tgt) in
  let src_batch := size0 src_words in
  let src_len := size1 src_words in
  let tgt_batch := size0 tgt_words in
  let tgt_len := size1 tgt_words in
  rbind (aeq [tgt_batch; memory_batch; src_batch; tgt_batch]) (fun _ =>
  rbind (aeq [memory_len; src_len]) (fun _ =>
  match previous_input s with
  | Some p => cat0 p tgt
  | None => Ok tgt
  end))).

(** Lines 220-225: the embeddings of the newly supplied tokens, batch
    first. *)
Definition decoder_input (self : TransformerDecoder R) (tgt : tokens)
    (s : TransformerDecoderState R) : act3 :=
  let emb := emb_call R (embeddings R self) tgt in
  let emb := match previous_input s with
             | Some p => drop (size0 p) emb
             | None => emb
             end in
  transpose01 emb.

(** Lines 228-232: the bias of the cross-attention. *)
Definition cross_bias (self : TransformerDecoder R) (s : TransformerDecoderState R)
  : bias3 :=
  encoder_decoder_bias_of (word_padding_idx R (embeddings R self))
    (transpose01 (select_word (src s))).

(** Lines 228-235: the bias of the self-attention. *)
Definition self_bias (self : TransformerDecoder R) (tgt : tokens) : bias3 :=
  let tgt_words := transpose01 (select_word tgt) in
  decoder_bias_of (word_padding_idx R (embeddings R self)) tgt_words
    (size0 tgt_words) (size1 tgt_words).

(** The attention maps of lines 215-217 and 254-256. *)
Definition attns_of (copy : bool) (attn : act3) : gmap string act3 :=
  let attns : gmap string act3 := {[ "std" := [] ]} in
  let attns := if copy then <["copy" := []]> attns else attns in
  let attns := <["std" := attn]> attns in
  if copy then <["copy" := attn]> attns else attns.

(** The result of [forward] before the state is updated: the outputs, the
    tokens and the saved inputs handed to [update_state], the attention
    maps, and the attention calls issued. *)
Record forward_out : Type := mkOut {
  out_outputs : act3;
  out_tgt : tokens;
  out_saved_inputs : list act3;
  out_attns : gmap string act3;
  out_calls : list (attn_call R)
}.

(** Lines 195-256 of [TransformerDecoder.forward], on the fields of the
    state object. *)
Definition forward_body (self : TransformerDecoder R) (tgt : tokens)
    (memory_bank : act3) (s : TransformerDecoderState R) : result forward_out :=
  let tgt0 := tgt in
  rbind (forward_checks tgt memory_bank s) (fun tgt =>
  let src_words := transpose01 (select_word (src s)) in
  let tgt_words := transpose01 (select_word tgt0) in
  let tgt_batch := size0 tgt_words in
  let tgt_len := size1 tgt_words in
  let attns : gmap string act3 := {[ "std" := [] ]} in
  let attns := if _copy R self then <["copy" := []]> attns else attns in
  let emb := emb_call R (embeddings R self) tgt in
  let emb := match previous_input s with
             | Some p => drop (size0 p) emb
             | None => emb
             end in
  let output := transpose01 emb in
  let src_memory_bank := transpose01 memory_bank in
  let padding_idx := word_padding_idx R (embeddings R self) in
  let encoder_decoder_bias := encoder_decoder_bias_of padding_idx src_words in
  let decoder_bias := decoder_bias_of padding_idx tgt_words tgt_batch tgt_len in
  rbind (run_layers s src_memory_bank decoder_bias encoder_decoder_bias
           (layer_stack R self) 0 (output, None, [], []))
        (fun '(output, attn, saved_inputs, calls) =>
  rbind (stack R saved_inputs) (fun saved_inputs =>
  let output := layer_norm R self output in
  let outputs := transpose01 output in
  rbind (match attn with
         | Some a => Ok a
         | None => Raise (NameError "attn")
         end) (fun attn =>
  let attn := transpose01 attn in
  let attns := <["std" := attn]> attns in
  let attns := if _copy R self then <["copy" := attn]> attns else attns in
  Ok (mkOut outputs tgt saved_inputs attns calls))))).

(** [TransformerDecoder.forward]: [state] is a reference into the heap. *)
Definition forward (self : TransformerDecoder R) (tgt : tokens)
    (memory_bank : act3) (state : nat) (h : gmap nat (pyobj R))
  : result (act3 * nat * gmap string act3 * gmap nat (pyobj R)) :=
  match h !! state with
  | Some (TDS s) =>
      rbind (forward_body self tgt memory_bank s) (fun o =>
      rbind (update_state state (out_tgt o) (out_saved_inputs o) h)
            (fun '(state', h') =>
      Ok (out_outputs o, state', out_attns o, h')))
  | _ => Raise AssertionError
  end.

(** [forward] raises in its checks, before the embeddings and the layers
    run: the state is not a [TransformerDecoderState], or lines 197-210
    raise. *)
Definition fails_fast (tgt : tokens) (memory_bank : act3)
    (o : option (pyobj R)) : bool :=
  match o with
  | Some (TDS s) => negb (is_ok (forward_checks tgt memory_bank s))
  | _ => true
  end.


(** [TransformerDecoder.init_decoder_state] *)
Definition init_decoder_state (src0 : tokens) (h : gmap nat (pyobj R))
  : nat * gmap nat (pyobj R) :=
  let l := fresh_loc h in (l, <[l := TDS (init_state src0)]> h).

(** Lines 195-256 again, with the result of [torch.stack] on the saved
    inputs left open: [stk] stands for that call. *)
Definition forward_body_with (stk : list act3 -> result (list act3))
    (self : TransformerDecoder R) (tgt : tokens)
    (memory_bank : act3) (s : TransformerDecoderState R) : result forward_out :=
  let tgt0 := tgt in
  rbind (forward_checks tgt memory_bank s) (fun tgt =>
  let src_words := transpose01 (select_word (src s)) in
  let tgt_words := transpose01 (select_word tgt0) in
  let tgt_batch := size0 tgt_words in
  let tgt_len := size1 tgt_words in
  let attns : gmap string act3 := {[ "std" := [] ]} in
  let attns := if _copy R self then <["copy" := []]> attns else attns in
  let emb := emb_call R (embeddings R self) tgt in
  let emb := match previous_input s with
             | Some p => drop (size0 p) emb
             | None => emb
             end in
  let output := transpose01 emb in
  let src_memory_bank := transpose01 memory_bank in
  let padding_idx := word_padding_idx R (embeddings R self) in
  let encoder_decoder_bias := encoder_decoder_bias_of padding_idx src_words in
  let decoder_bias := decoder_bias_of padding_idx tgt_words tgt_batch tgt_len in
  rbind (run_layers s src_memory_bank decoder_bias encoder_decoder_bias
           (layer_stack R self) 0 (output, None, [], []))
        (fun '(output, attn, saved_inputs, calls) =>
  rbind (stk saved_inputs) (fun saved_inputs =>
  let output := layer_norm R self output in
  let outputs := transpose01 output in
  rbind (match attn with
         | Some a => Ok a
         | None => Raise (NameError "attn")
         end) (fun attn =>
  let attn := transpose01 attn in
  let attns := <["std" := attn]> attns in
  let attns := if _copy R self then <["copy" := attn]> attns else attns in
  Ok (mkOut outputs tgt saved_inputs attns calls))))).

End Decoder.

(** ** Shapes

    The kernels return a tensor of the shape of their argument on all three
    axes, attention a context of the shape of its query. *)

Section Shapes.
Variable R : Type.

Definition shape_of (t : list (list (list R))) : list (list nat) :=
  map (map length) t.

Definition keeps_shape (f : list (list (list R)) -> list (list (list R))) : Prop :=
  forall x, shape_of (f x) = shape_of x.

Definition attn_keeps_shape (ma : MultiheadAttention R) : Prop :=
  forall q m h b, shape_of (fst (ma q m h b)) = shape_of q.

Record layer_keeps_shape (self : DecoderLayer R) : Prop := {
  ks_ma_l1 : attn_keeps_shape (ma_l1 R self);
  ks_ma_l2 : attn_keeps_shape (ma_l2 R self);
  ks_ffn : keeps_shape (ffn R self);
  ks_ma_l1_prenorm : keeps_shape (ma_l1_prenorm R self);
  ks_ma_l2_prenorm : keeps_shape (ma_l2_prenorm R self);
  ks_ffn_prenorm : keeps_shape (ffn_prenorm R self);
  ks_ma_l1_postdropout : keeps_shape (ma_l1_postdropout R self);
  ks_ma_l2_postdropout : keeps_shape (ma_l2_postdropout R self);
  ks_ffn_postdropout : keeps_shape (ffn_postdropout R self)
}.

(** The weights an attention returns hold one row per query position of
    each batch entry. *)
Definition attn_weights_dims (ma : MultiheadAttention R) : Prop :=
  forall q m h b, map length (snd (ma q m h b)) = map length q.
End Shapes.

(** ** Attention with an additive bias

    The bias is added to the logits before the softmax.  A key whose bias
    is the large negative constant gets no weight when another key of the
    row has bias 0; a row whose entries are all the large negative constant
    gives every key the same weight.  The contract below says what the
    context of a query depends on in each case. *)

Section Rowwise.
Variable R : Type.
Variable fadd : R -> R -> R.

(** A bias row over [klen] keys that allows one of them: its entries are 0
    or the large negative constant, and one of the first [klen] is 0. *)
Definition open_row (klen : nat) (brow : list Z) : Prop :=
  (exists j, j < klen /\ brow !! j = Some 0%Z) /\
  Forall (fun v => v = 0%Z \/ v = neg_inf) brow.

(** The context of a query is a function [attf] of the query, of the keys
    of its batch entry and of its bias row; on rows that allow a key, it
    depends on the keys through the allowed ones only. *)
Definition attends_rowwise (ma : MultiheadAttention R)
    (attf : list R -> list (list R) -> list Z -> list R) : Prop :=
  (forall q m h b,
     fst (ma q (Some m) h b) =
     imap (fun i qrows =>
             imap (fun r qv =>
                     attf qv (default [] (m !! i))
                       (bias_row b i r (length (default [] (m !! i)))))
                  qrows) q) /\
  (forall qv keys keys' brow brow',
     open_row (length keys) brow -> open_row (length keys') brow' ->
     allowed keys brow = allowed keys' brow' ->
     attf qv keys brow = attf qv keys' brow').

Record rowwise_model : Type := mkRowwise {
  rm_n1 : list R -> list R;
  rm_n2 : list R -> list R;
  rm_n3 : list R -> list R;
  rm_ffn : list R -> list R;
  rm_att1 : list R -> list (list R) -> list Z -> list R;
  rm_att2 : list R -> list (list R) -> list Z -> list R
}.

Record layer_rowwise (self : DecoderLayer R) (M : rowwise_model) : Prop := {
  rw_ma_l1 : attends_rowwise (ma_l1 R self) (rm_att1 M);
  rw_ma_l2 : attends_rowwise (ma_l2 R self) (rm_att2 M);
  rw_ffn : pointwise R (ffn R self) (rm_ffn M);
  rw_ma_l1_prenorm : pointwise R (ma_l1_prenorm R self) (rm_n1 M);
  rw_ma_l2_prenorm : pointwise R (ma_l2_prenorm R self) (rm_n2 M);
  rw_ffn_prenorm : pointwise R (ffn_prenorm R self) (rm_n3 M);
  rw_ma_l1_postdropout : forall x, ma_l1_postdropout R self x = x;
  rw_ma_l2_postdropout : forall x, ma_l2_postdropout R self x = x;
  rw_ffn_postdropout : forall x, ffn_postdropout R self x = x
}.

Record decoder_rowwise (self : TransformerDecoder R) (Ms : list rowwise_model)
    (ef : nat -> token -> list R) (nf : list R -> list R) : Prop := {
  rw_layers : Forall2 layer_rowwise (layer_stack R self) Ms;
  rw_embeddings : emb_pointwise R (embeddings R self) ef;
  rw_layer_norm : pointwise R (layer_norm R self) nf
}.

(** One position through a layer: its vector [x], the keys and the bias
    row of its self-attention, the keys and the bias row of its
    cross-attention. *)
Definition row_pos (M : rowwise_model) (cross : list (list R)) (crow : list Z)
    (x : list R) (keys : list (list R)) (brow : list Z) : list R :=
  let y := rm_att1 M (rm_n1 M x) keys brow in
  let x1 := zip_with fadd y x in
  let y := rm_att2 M (rm_n2 M x1) cross crow in
  let x2 := zip_with fadd y x1 in
  let y := rm_ffn M (rm_n3 M x2) in
  zip_with fadd y x2.
End Rowwise.

(** ** The encoder *)

Module Encoder.
Section Encoder.
Variable R : Type.
Variable fadd : R -> R -> R.

Abbreviation act3 := (list (list (list R))).
Abbreviation bias3 := (list (list (list Z))).

(** [class EncoderLayer] *)
Record EncoderLayer : Type := mkEncoderLayer {
  num_heads : nat;
  ma : MultiheadAttention R;
  ffn : act3 -> act3;
  ma_prenorm : act3 -> act3;
  ffn_prenorm : act3 -> act3;
  ma_postdropout : act3 -> act3;
  ffn_postdropout : act3 -> act3
}.

(** [EncoderLayer.forward], lines 63-78. *)
Definition EncoderLayer_forward (self : EncoderLayer) (x : act3) (bias : bias3)
  : act3 :=
  let y := fst (ma self (ma_prenorm self x) None (num_heads self) (Some bias)) in
  let x := tadd R fadd (ma_postdropout self y) x in
  let y := ffn self (ffn_prenorm self x) in
  let ans := tadd R fadd (ffn_postdropout self y) x in
  ans.

(** [class TransformerEncoder].  [__init__] builds [layer_stack] with
    [num_layers] layers.  [_check_args] is inherited from [EncoderBase],
    which this file imports: it is a field here. *)
Record TransformerEncoder : Type := mkTransformerEncoder {
  embeddings : Embeddings R;
  layer_stack : list EncoderLayer;
  layer_norm : act3 -> act3;
  _check_args : tokens -> option (list nat) -> option act3 -> result unit
}.

Definition num_layers (self : TransformerEncoder) : nat :=
  length (layer_stack self).

(** Lines 156-158: the self-attention bias of the encoder. *)
Definition encoder_bias (self : TransformerEncoder) (words : list (list Z))
  : bias3 :=
  let padding_idx := word_padding_idx R (embeddings self) in
  let mask := eq_pad padding_idx words in
  unsqueeze1 (map (map (fun m => (m * neg_inf)%Z)) mask).

(** [TransformerEncoder.forward], lines 139-164: the embeddings and the
    memory bank. *)
Definition forward (self : TransformerEncoder) (input : tokens)
    (lengths : option (list nat)) (hidden : option act3)
  : result (act3 * act3) :=
  rbind (_check_args self input lengths hidden) (fun _ =>
  let emb := emb_call R (embeddings self) input in
  let out := transpose01 emb in
  let words := transpose01 (select_word input) in
  let out_batch := size0 out in
  let out_len := size1 out in
  let w_batch := size0 words in
  let w_len := size1 words in
  rbind (aeq [out_batch; w_batch]) (fun _ =>
  rbind (aeq [out_len; w_len]) (fun _ =>
  let bias := encoder_bias self words in
  let out := foldl (fun out layer => EncoderLayer_forward layer out bias)
                   out (layer_stack self) in
  let out := layer_norm self out in
  Ok (emb, transpose01 out)))).

(** Shape contracts of the kernels of an encoder. *)
Record layer_keeps_dims (self : EncoderLayer) : Prop := {
  kd_ma : attn_keeps_dims R (ma self);
  kd_ffn : keeps_dims R (ffn self);
  kd_ma_prenorm : keeps_dims R (ma_prenorm self);
  kd_ffn_prenorm : keeps_dims R (ffn_prenorm self);
  kd_ma_postdropout : keeps_dims R (ma_postdropout self);
  kd_ffn_postdropout : keeps_dims R (ffn_postdropout self)
}.

Record encoder_keeps_dims (self : TransformerEncoder) : Prop := {
  kd_embeddings : emb_keeps_dims R (embeddings self);
  kd_layers : Forall layer_keeps_dims (layer_stack self);
  kd_layer_norm : keeps_dims R (layer_norm self)
}.
End Encoder.
End Encoder.

(** ** The decoder on a whole target, position by position

    What the single call and the step-by-step calls are compared with: the
    stack of layers applied to every batch entry of a target, and the state
    the step-by-step calls pass on. *)

(** The bias row of the padding mask alone. *)
Definition pad_row (padding_idx : Z) (words : list Z) : list Z :=
  map (fun w => if decide (w = padding_idx) then neg_inf else 0%Z) words.

Section Reference.
Variable R : Type.
Variable fadd : R -> R -> R.
Variable padding_idx : Z.








(** The result of the stack for batch entry [b], from the embedded target
    [E] (length x batch) and the words [W] (batch x length). *)
Definition full_positions (dec : TransformerDecoder R)
    (Ms : list (layer_model R)) (ef : nat -> token -> list R)
    (tgt : list (list token)) (mb : list (list (list R)))
    (s : TransformerDecoderState R) : list (list (list R)) :=
  imap (fun b xs =>
          ref_stack R fadd (word_padding_idx R (embeddings R dec))
            (default [] (transpose01 (select_word tgt) !! b))
            (cross_of R (transpose01 mb) (cross_bias R dec s) b) Ms xs)
       (transpose01 (imap (fun i row => map (ef i) row) tgt)).

End Reference.

(** ** A small instance

    Integer activations, identity normalisation, feed-forward and dropout,
    and an attention that adds to each query the keys its bias allows.  It
    is used to run the wiring on concrete inputs. *)

Module Small.

Definition vadd (a b : list Z) : list Z := zip_with Z.add a b.

Definition attend_row (q : list Z) (keys : list (list Z)) : list Z :=
  foldl vadd q keys.

Definition weights_row (klen : nat) (brow : list Z) : list Z :=
  map (fun v => if decide (v = 0%Z) then 1%Z else 0%Z) (take klen brow).

Definition attention : MultiheadAttention Z :=
  fun query memory _ bias =>
    let mem := default query memory in
    let run (f : nat -> nat -> list Z -> list (list Z) -> list Z) :=
      imap (fun b qrows =>
              let keys := default [] (mem !! b) in
              imap (fun r q => f b r q keys) qrows) query in
    (run (fun b r q keys =>
            attend_row q (allowed keys (bias_row bias b r (length keys)))),
     run (fun b r q keys =>
            weights_row (length keys) (bias_row bias b r (length keys)))).

Definition layer : DecoderLayer Z :=
  {| num_heads := 8;
     ma_l1 := attention; ma_l2 := attention;
     ffn := id;
     ma_l1_prenorm := id; ma_l2_prenorm := id; ffn_prenorm := id;
     ma_l1_postdropout := id; ma_l2_postdropout := id; ffn_postdropout := id |}.

(** Token [w] at position [i] embeds as the vector [[w; i]]. *)
Definition embed : tokens -> list (list (list Z)) :=
  imap (fun i row => map (fun t => [word t; Z.of_nat i]) row).

Definition table : Embeddings Z :=
  {| emb_call := embed; word_padding_idx := 1%Z |}.

Definition decoder (n : nat) (copy : bool) : TransformerDecoder Z :=
  {| embeddings := table;
     layer_stack := replicate n layer;
     _copy := copy;
     copy_attn := if copy then Some attention else None;
     layer_norm := id |}.


Definition embed_token (i : nat) (t : token) : list Z := [word t; Z.of_nat i].

Definition tok (w : Z) : token := Token w [].

(** Two source positions and a batch of two. *)
Definition src0 : tokens := [[tok 5; tok 6]; [tok 7; tok 1]].
Definition memory_bank0 : list (list (list Z)) :=
  [[[10; 0]; [20; 0]]; [[30; 0]; [40; 0]]]%Z.
Definition tgt0 : tokens := [[tok 2; tok 3]; [tok 4; tok 8]; [tok 9; tok 2]].
(** A target whose first batch entry starts with the padding word. *)
Definition tgt_pad : tokens := [[tok 1; tok 3]; [tok 4; tok 8]].
(** The same target with other tokens at the last position. *)
Definition tgt0' : tokens := [[tok 2; tok 3]; [tok 4; tok 8]; [tok 6; tok 1]].

Definition heap0 : gmap nat (pyobj Z) := {[ 0 := TDS (init_state src0) ]}.

(** The state after a first step on one token per batch entry, and two
    further tokens. *)
Definition tgt_first : tokens := [[tok 2; tok 3]].
Definition tgt_next : tokens := [[tok 4; tok 8]; [tok 9; tok 2]].
Definition heap1 : gmap nat (pyobj Z) :=
  match forward Z Z.add (decoder 2 true) tgt_first memory_bank0 0 heap0 with
  | Ok (_, _, _, h) => h
  | Raise _ => heap0
  end.

Definition state1 : nat :=
  match forward Z Z.add (decoder 2 true) tgt_first memory_bank0 0 heap0 with
  | Ok (_, st, _, _) => st
  | Raise _ => 0
  end.

(** Inputs of one decoder layer: one batch entry, one new position, one
    cached position, two source positions of which the second is padding. *)
Definition x1 : list (list (list Z)) := [[[1; 2]]]%Z.
Definition p1 : list (list (list Z)) := [[[5; 5]]]%Z.
Definition enc1 : list (list (list Z)) := [[[10; 0]; [20; 0]]]%Z.
Definition sb1 : list (list (list Z)) := [[[0]]]%Z.
Definition eb1 : list (list (list Z)) := [[[0; -1000000000]]]%Z.

(** A beam-search session: one source sentence, decoded one step, then the
    state expanded to a beam of two. *)
Definition srcA : tokens := [[tok 5]; [tok 6]].
Definition mbA : list (list (list Z)) := [[[10; 0]]; [[20; 0]]]%Z.
Definition tgtA : tokens := [[tok 2]].
Definition heapA : gmap nat (pyobj Z) := {[ 0 := TDS (init_state srcA) ]}.
Definition mbB : list (list (list Z)) :=
  [[[10; 0]; [10; 0]]; [[20; 0]; [20; 0]]]%Z.
Definition tgtB : tokens := [[tok 4; tok 4]].

(** An encoder over the same kernels; its [_check_args] accepts every
    input. *)
Definition encoder_layer : Encoder.EncoderLayer Z :=
  {| Encoder.num_heads := 8;
     Encoder.ma := attention;
     Encoder.ffn := id;
     Encoder.ma_prenorm := id; Encoder.ffn_prenorm := id;
     Encoder.ma_postdropout := id; Encoder.ffn_postdropout := id |}.

Definition encoder (n : nat) : Encoder.TransformerEncoder Z :=
  {| Encoder.embeddings := table;
     Encoder.layer_stack := replicate n encoder_layer;
     Encoder.layer_norm := id;
     Encoder._check_args := fun _ _ _ => Ok tt |}.

(** A decoder whose attention returns its query: its kernels keep the
    shape of their argument on all three axes. *)
Definition plain_attention : MultiheadAttention Z :=
  fun query _ _ _ => (query, query).

Definition plain_layer : DecoderLayer Z :=
  {| num_heads := 8;
     ma_l1 := plain_attention; ma_l2 := plain_attention;
     ffn := id;
     ma_l1_prenorm := id; ma_l2_prenorm := id; ffn_prenorm := id;
     ma_l1_postdropout := id; ma_l2_postdropout := id; ffn_postdropout := id |}.

Definition plain_decoder (n : nat) : TransformerDecoder Z :=
  {| embeddings := table;
     layer_stack := replicate n plain_layer;
     _copy := false;
     copy_attn := None;
     layer_norm := id |}.

(** Attention with an additive bias, in saturating arithmetic: logits
    that differ by the large negative constant leave weight to the keys
    whose bias is the largest of the row only, so the row is shifted by its
    largest entry; on a row whose entries are all the large negative
    constant every key gets weight. *)
Definition shift (brow : list Z) : list Z :=
  let m := foldr Z.max (hd 0%Z brow) brow in
  map (fun v => (v - m)%Z) brow.

Definition soft_attention : MultiheadAttention Z :=
  fun query memory _ bias =>
    let mem := default query memory in
    let run (f : nat -> nat -> list Z -> list (list Z) -> list Z) :=
      imap (fun b qrows =>
              let keys := default [] (mem !! b) in
              imap (fun r q => f b r q keys) qrows) query in
    (run (fun b r q keys =>
            attend_row q
              (allowed keys
                 (shift (take (length keys) (bias_row bias b r (length keys)))))),
     run (fun b r q keys =>
            weights_row (length keys)
              (shift (take (length keys) (bias_row bias b r (length keys)))))).

Definition soft_layer : DecoderLayer Z :=
  {| num_heads := 8;
     ma_l1 := soft_attention; ma_l2 := soft_attention;
     ffn := id;
     ma_l1_prenorm := id; ma_l2_prenorm := id; ffn_prenorm := id;
     ma_l1_postdropout := id; ma_l2_postdropout := id; ffn_postdropout := id |}.

Definition soft_decoder (n : nat) : TransformerDecoder Z :=
  {| embeddings := table;
     layer_stack := replicate n soft_layer;
     _copy := false;
     copy_attn := None;
     layer_norm := id |}.

(** What the kernels of [soft_layer] compute at each position. *)
Definition soft_model : rowwise_model Z :=
  {| rm_n1 := id; rm_n2 := id; rm_n3 := id; rm_ffn := id;
     rm_att1 := fun q keys brow =>
       attend_row q (allowed keys (shift (take (length keys) brow)));
     rm_att2 := fun q keys brow =>
       attend_row q (allowed keys (shift (take (length keys) brow))) |}.

(** [tgt_pad] with another token at its second position. *)
Definition tgt_pad' : tokens := [[tok 1; tok 3]; [tok 9; tok 8]].

End Small.

(** ** Names

    The names the module binds, and the constructors as sequences of
    statements over a small expression language, to follow which names a
    constructor loads and in which order. *)

Module Names.

(** The import statements of lines 6-15. *)
Inductive import_stmt : Type :=
| FromImport (module name : string)
| ImportModule (module : string)
| ImportAs (module alias : string).

(** [import a.b.c] binds the top-level package [a]. *)
Fixpoint top_component (s : string) : string :=
  match s with
  | EmptyString => EmptyString
  | String c rest =>
      if Ascii.eqb c "."%char then EmptyString
      else String c (top_component rest)
  end.

Definition bound_name (st : import_stmt) : string :=
  match st with
  | FromImport _ name => name
  | ImportModule module => top_component module
  | ImportAs _ alias => alias
  end.

Definition imports : list import_stmt :=
  [ FromImport "onmt.modules" "attention";
    FromImport "onmt.modules" "layers";
    FromImport "onmt.Models" "EncoderBase";
    FromImport "onmt.Models" "DecoderState";
    FromImport "onmt.Utils" "aeq";
    ImportModule "torch";
    FromImport "torch" "nn";
    FromImport "torch.autograd" "Variable";
    ImportAs "torch.nn.functional" "F" ].

Definition classes : list string :=
  [ "PositionwiseFeedForward"; "EncoderLayer"; "DecoderLayer";
    "TransformerEncoder"; "TransformerDecoder"; "TransformerDecoderState" ].

(** The global names of the module once it has been executed. *)
Definition module_globals : gset string :=
  list_to_set (map bound_name imports ++ classes).

(** The builtins the file uses. *)
Definition builtins : gset string :=
  list_to_set [ "super"; "isinstance"; "range"; "property"; "True"; "False";
                "None" ].

Inductive expr : Type :=
| Name (id : string)
| Attr (e : expr) (attr : string)
| Call (f : expr) (args : list expr)
| ListComp (elt : expr) (iter : expr) (count : string)
| Const.

Inductive stmt : Type :=
| SExpr (e : expr)
| SAssign (target : expr) (value : expr)
| SIf (cond : string) (body : list stmt).

Section Eval.
(** The parameters of the function, its local names. *)
Variable locals : list string.
(** The outcome of a call into an imported module or a builtin. *)
Variable extern : expr -> result unit.
(** The outcome of constructing a class of this module. *)
Variable construct : string -> option (result unit).
(** The truth value and the integer value of the arguments. *)
Variable truthy : string -> bool.
Variable count_of : string -> nat.

(** Loading a name: the locals, then the globals, then the builtins. *)
Definition load (id : string) : result unit :=
  if bool_decide (id ∈ locals) then Ok tt
  else if bool_decide (id ∈ module_globals) then Ok tt
  else if bool_decide (id ∈ builtins) then Ok tt
  else Raise (NameError id).

Definition call (f : expr) : result unit :=
  match f with
  | Name c => match construct c with Some r => r | None => extern f end
  | _ => extern f
  end.

(** The callee is evaluated before the arguments, the arguments from left
    to right, then the call is made. *)
Fixpoint eval (e : expr) : result unit :=
  match e with
  | Name id => load id
  | Attr e' _ => eval e'
  | Call f args =>
      rbind (eval f) (fun _ =>
      rbind ((fix eval_args (l : list expr) : result unit :=
                match l with
                | [] => Ok tt
                | a :: rest => rbind (eval a) (fun _ => eval_args rest)
                end) args) (fun _ => call f))
  | ListComp elt iter n =>
      rbind (eval iter) (fun _ =>
      match count_of n with
      | 0 => Ok tt
      | S _ => eval elt
      end)
  | Const => Ok tt
  end.

(** An assignment evaluates its right-hand side first. *)
Fixpoint exec_stmt (s : stmt) : result unit :=
  match s with
  | SExpr e => eval e
  | SAssign target value => rbind (eval value) (fun _ => eval target)
  | SIf cond branch =>
      rbind (load cond) (fun _ =>
      if truthy cond
      then (fix exec_branch (l : list stmt) : result unit :=
              match l with
              | [] => Ok tt
              | s' :: rest => rbind (exec_stmt s') (fun _ => exec_branch rest)
              end) branch
      else Ok tt)
  end.

Fixpoint exec (body : list stmt) : result unit :=
  match body with
  | [] => Ok tt
  | s :: rest => rbind (exec_stmt s) (fun _ => exec rest)
  end.
End Eval.

(** [super(C, self).__init__()] *)
Definition super_init (c : string) : stmt :=
  SExpr (Call (Attr (Call (Name "super") [Name c; Name "self"]) "__init__") []).

Definition self_attr (a : string) : expr := Attr (Name "self") a.

(** [PositionwiseFeedForward.__init__], lines 26-34. *)
Definition PositionwiseFeedForward_params : list string :=
  [ "self"; "size"; "hidden_size"; "dropout" ].

Definition PositionwiseFeedForward_init : list stmt :=
  [ super_init "PositionwiseFeedForward";
    SAssign (self_attr "w_1")
      (Call (Attr (Name "nn") "Linear") [Name "size"; Name "hidden_size"]);
    SAssign (self_attr "w_2")
      (Call (Attr (Name "nn") "Linear") [Name "hidden_size"; Name "size"]);
    SAssign (self_attr "layer_norm")
      (Call (Attr (Attr (Name "onmt") "modules") "LayerNorm") [Name "size"]);
    SAssign (self_attr "dropout_1")
      (Call (Attr (Name "nn") "Dropout") [Name "dropout"; Const]);
    SAssign (self_attr "relu") (Call (Attr (Name "nn") "ReLU") [Const]);
    SAssign (self_attr "dropout_2")
      (Call (Attr (Name "nn") "Dropout") [Name "dropout"]) ].

(** [DecoderLayer.__init__], lines 82-103. *)
Definition DecoderLayer_params : list string :=
  [ "self"; "hidden_size"; "dropout"; "num_heads"; "filter_size" ].

Definition multihead : expr :=
  Call (Attr (Name "attention") "MultiheadAttention")
    [Name "hidden_size"; Name "hidden_size"; Name "hidden_size"; Name "dropout"].

Definition layer_norm_call : expr :=
  Call (Attr (Name "layers") "LayerNorm") [Name "hidden_size"].

Definition dropout_call : expr :=
  Call (Attr (Name "nn") "Dropout") [Name "dropout"].

Definition DecoderLayer_init : list stmt :=
  [ super_init "DecoderLayer";
    SAssign (self_attr "num_heads") (Name "num_heads");
    SAssign (self_attr "ma_l1") multihead;
    SAssign (self_attr "ma_l2") multihead;
    SAssign (self_attr "ffn")
      (Call (Attr (Name "layers") "ffn_layer")
         [Name "hidden_size"; Name "filter_size"; Name "hidden_size";
          Name "dropout"]);
    SAssign (self_attr "ma_l1_prenorm") layer_norm_call;
    SAssign (self_attr "ma_l2_prenorm") layer_norm_call;
    SAssign (self_attr "ffn_prenorm") layer_norm_call;
    SAssign (self_attr "ma_l1_postdropout") dropout_call;
    SAssign (self_attr "ma_l2_postdropout") dropout_call;
    SAssign (self_attr "ffn_postdropout") dropout_call ].

(** [TransformerDecoder.__init__], lines 170-189. *)
Definition TransformerDecoder_params : list string :=
  [ "self"; "num_layers"; "hidden_size"; "attn_type"; "copy_attn"; "dropout";
    "embeddings" ].

Definition TransformerDecoder_init : list stmt :=
  [ super_init "TransformerDecoder";
    SAssign (self_attr "decoder_type") Const;
    SAssign (self_attr "num_layers") (Name "num_layers");
    SAssign (self_attr "embeddings") (Name "embeddings");
    SAssign (self_attr "layer_stack")
      (Call (Attr (Name "nn") "ModuleList")
         [ ListComp (Call (Name "DecoderLayer") [Name "hidden_size"; Name "dropout"])
             (Call (Name "range") [Name "num_layers"]) "num_layers" ]);
    SAssign (self_attr "_copy") Const;
    SIf "copy_attn"
      [ SAssign (self_attr "copy_attn")
          (Call (Attr (Attr (Name "onmt") "modules") "GlobalAttention")
             [Name "hidden_size"; Name "attn_type"]);
        SAssign (self_attr "_copy") Const ];
    SAssign (self_attr "layer_norm") layer_norm_call ].

(** Constructing a [DecoderLayer], and a [TransformerDecoder]. *)
Definition new_DecoderLayer (extern : expr -> result unit) : result unit :=
  exec DecoderLayer_params extern (fun _ => None) (fun _ => false) (fun _ => 0)
    DecoderLayer_init.

Definition new_PositionwiseFeedForward (extern : expr -> result unit)
  : result unit :=
  exec PositionwiseFeedForward_params extern (fun _ => None) (fun _ => false)
    (fun _ => 0) PositionwiseFeedForward_init.

Definition new_TransformerDecoder (extern : expr -> result unit)
    (num_layers : nat) (copy_attn : bool) : result unit :=
  exec TransformerDecoder_params extern
    (fun c => if String.eqb c "DecoderLayer"
              then Some (new_DecoderLayer extern) else None)
    (fun x => if String.eqb x "copy_attn" then copy_attn else false)
    (fun _ => num_layers)
    TransformerDecoder_init.

(** The global names each class loads outside the constructors modelled
    above: its bases, its other constructors' and methods' bodies. *)
Definition other_loads : list (string * list string) :=
  [ ("PositionwiseFeedForward", ["nn"]);
    ("EncoderLayer", ["nn"; "super"; "EncoderLayer"; "attention"; "layers"]);
    ("DecoderLayer", ["EncoderBase"; "torch"]);
    ("TransformerEncoder",
       ["EncoderBase"; "super"; "TransformerEncoder"; "nn"; "EncoderLayer";
        "range"; "layers"; "aeq"; "Variable"; "torch"]);
    ("TransformerDecoder",
       ["nn"; "isinstance"; "TransformerDecoderState"; "aeq"; "torch";
        "Variable"; "attention"; "range"]);
    ("TransformerDecoderState",
       ["DecoderState"; "property"; "TransformerDecoderState"; "Variable"]) ].

(** The names an expression and a body mention. *)
Fixpoint names_of (e : expr) : list string :=
  match e with
  | Name id => [id]
  | Attr e' _ => names_of e'
  | Call f args => names_of f ++ flat_map names_of args
  | ListComp elt iter _ => names_of iter ++ names_of elt
  | Const => []
  end.

Fixpoint names_of_stmt (s : stmt) : list string :=
  match s with
  | SExpr e => names_of e
  | SAssign t v => names_of v ++ names_of t
  | SIf c branch => c :: flat_map names_of_stmt branch
  end.

Definition names_of_body (body : list stmt) : list string :=
  flat_map names_of_stmt body.

(** Every name loaded by a class other than [PositionwiseFeedForward]. *)
Definition loads_outside_feed_forward : list string :=
  flat_map snd (filter (fun p => p.1 <> "PositionwiseFeedForward") other_loads)
  ++ names_of_body DecoderLayer_init
  ++ names_of_body TransformerDecoder_init.

(** [EncoderLayer.__init__], lines 46-61. *)
Definition EncoderLayer_params : list string :=
  [ "self"; "hidden_size"; "dropout"; "num_heads"; "filter_size" ].

Definition EncoderLayer_init : list stmt :=
  [ super_init "EncoderLayer";
    SAssign (self_attr "num_heads") (Name "num_heads");
    SAssign (self_attr "ma") multihead;
    SAssign (self_attr "ffn")
      (Call (Attr (Name "layers") "ffn_layer")
         [Name "hidden_size"; Name "filter_size"; Name "hidden_size";
          Name "dropout"]);
    SAssign (self_attr "ma_prenorm") layer_norm_call;
    SAssign (self_attr "ffn_prenorm") layer_norm_call;
    SAssign (self_attr "ma_postdropout") dropout_call;
    SAssign (self_attr "ffn_postdropout") dropout_call ].

(** [TransformerEncoder.__init__], lines 130-137. *)
Definition TransformerEncoder_params : list string :=
  [ "self"; "num_layers"; "hidden_size"; "dropout"; "embeddings" ].

Definition TransformerEncoder_init : list stmt :=
  [ super_init "TransformerEncoder";
    SAssign (self_attr "num_layers") (Name "num_layers");
    SAssign (self_attr "embeddings") (Name "embeddings");
    SAssign (self_attr "layer_stack")
      (Call (Attr (Name "nn") "ModuleList")
         [ ListComp (Call (Name "EncoderLayer") [Name "hidden_size"; Name "dropout"])
             (Call (Name "range") [Name "num_layers"]) "num_layers" ]);
    SAssign (self_attr "layer_norm") layer_norm_call ].

(** Constructing an [EncoderLayer], and a [TransformerEncoder]. *)
Definition new_EncoderLayer (extern : expr -> result unit) : result unit :=
  exec EncoderLayer_params extern (fun _ => None) (fun _ => false) (fun _ => 0)
    EncoderLayer_init.

Definition new_TransformerEncoder (extern : expr -> result unit)
    (num_layers : nat) : result unit :=
  exec TransformerEncoder_params extern
    (fun c => if String.eqb c "EncoderLayer"
              then Some (new_EncoderLayer extern) else None)
    (fun _ => false)
    (fun _ => num_layers)
    TransformerEncoder_init.

(** A name a function with parameters [locals] can load. *)
Definition bound (locals : list string) (id : string) : bool :=
  bool_decide (id ∈ locals) || bool_decide (id ∈ module_globals)
  || bool_decide (id ∈ builtins).

End Names.

(** * Properties *)

(** ** Tiling *)

Lemma length_tile {A} (k : nat) (row : list A) :
  length (tile k row) = k * length row.
Proof.
  unfold tile. induction k as [|k IH]; simpl; [done|].
  rewrite length_app, IH. done.
Qed.

Lemma lookup_tile {A} (k c j : nat) (row : list A) :
  c < k -> j < length row ->
  tile k row !! (c * length row + j) = row !! j.
Proof.
  unfold tile. revert c. induction k as [|k IH]; intros c Hc Hj; [lia|].
  simpl. destruct c as [|c].
  - simpl. by rewrite lookup_app_l.
  - rewrite lookup_app_r by (simpl; lia).
    replace (S c * length row + j - length row) with (c * length row + j)
      by (simpl; lia).
    apply IH; lia.
Qed.

Lemma lookup_map {A B} (f : A -> B) (l : list A) (i : nat) :
  map f l !! i = f <$> l !! i.
Proof. revert i. induction l as [|a l IH]; intros [|i]; simpl; auto. Qed.

Lemma map_drop {A B} (f : A -> B) (n : nat) (l : list A) :
  map f (drop n l) = drop n (map f l).
Proof. revert n. induction l as [|a l IH]; intros [|n]; simpl; auto. Qed.

Lemma map_take {A B} (f : A -> B) (n : nat) (l : list A) :
  map f (take n l) = take n (map f l).
Proof.
  revert n. induction l as [|a l IH]; intros [|n]; simpl; auto.
  by rewrite IH.
Qed.

Lemma fresh_loc_not_in {R} (h : gmap nat (pyobj R)) : h !! fresh_loc h = None.
Proof.
  unfold fresh_loc. apply not_elem_of_dom. apply is_fresh.
Qed.

(** ** The decoder state *)

Section StateProperties.
Variable R : Type.
Implicit Types (h : gmap nat (pyobj R)) (s : TransformerDecoderState R).

Lemma update_state_ok h self s input caches :
  h !! self = Some (TDS s) ->
  update_state self input caches h =
    Ok (fresh_loc h,
        <[fresh_loc h := TDS (mkState (src s) (Some input) (Some caches))]> h).
Proof. intros Hs. unfold update_state. rewrite Hs. done. Qed.

Lemma update_state_inv h self input caches l h' :
  update_state self input caches h = Ok (l, h') ->
  exists s, h !! self = Some (TDS s) /\ l = fresh_loc h /\
    h' = <[l := TDS (mkState (src s) (Some input) (Some caches))]> h.
Proof.
  unfold update_state. destruct (h !! self) as [[s|]|] eqn:Hs; [|done..].
  simpl. intros [= <- <-]. eauto.
Qed.

Lemma update_state_frame h self input caches l h' l0 :
  update_state self input caches h = Ok (l, h') ->
  is_Some (h !! l0) -> h' !! l0 = h !! l0.
Proof.
  intros (s & _ & -> & ->)%update_state_inv [o Ho].
  rewrite lookup_insert_ne; [done|].
  intros E. rewrite <- E, fresh_loc_not_in in Ho. done.
Qed.

Lemma forward_inv (fadd : R -> R -> R) self tgt memory_bank state h
    outputs state' attns h' :
  forward R fadd self tgt memory_bank state h = Ok (outputs, state', attns, h') ->
  exists s o, h !! state = Some (TDS s) /\
    forward_body R fadd self tgt memory_bank s = Ok o /\
    outputs = out_outputs R o /\ attns = out_attns R o /\
    update_state state (out_tgt R o) (out_saved_inputs R o) h = Ok (state', h').
Proof.
  unfold forward. destruct (h !! state) as [[s|]|] eqn:Hs; [|done..].
  destruct (forward_body R fadd self tgt memory_bank s) as [o|] eqn:Ho; [|done].
  simpl. destruct (update_state _ _ _ _) as [[l h1]|] eqn:Hu; [|done].
  simpl. intros [= <- <- <- <-]. exists s, o. done.
Qed.

(** C5: [repeat_beam_size_times k] assigns to [src], in the object [self]
    refers to, a tensor with as many positions, whose batch axis is [k]
    times as long and holds example [j] at every index [c * batch + j] for
    [c < k]; the other fields and every other object are unchanged.  It is
    the one method that changes the object: [update_state] leaves it as it
    was. *)
Theorem repeat_beam_size_times_in_place h self s k :
  h !! self = Some (TDS s) ->
  exists h' s',
    repeat_beam_size_times self k h = Ok h' /\
    h' !! self = Some (TDS s') /\
    previous_input s' = previous_input s /\
    previous_layer_inputs s' = previous_layer_inputs s /\
    length (src s') = length (src s) /\
    (forall i row, src s !! i = Some row ->
       exists row', src s' !! i = Some row' /\
         length row' = k * length row /\
         forall c j, c < k -> j < length row ->
           row' !! (c * length row + j) = row !! j) /\
    (forall l, l <> self -> h' !! l = h !! l) /\
    (forall input caches l h1,
       update_state self input caches h = Ok (l, h1) ->
       h1 !! self = Some (TDS s)).
Proof.
  intros Hs. unfold repeat_beam_size_times. rewrite Hs.
  eexists _, _. split; [reflexivity|].
  split; [apply lookup_insert_eq|]. simpl.
  split; [done|]. split; [done|].
  split; [unfold repeat1; by rewrite length_map|].
  split.
  - intros i row Hrow. exists (tile k row).
    split; [cbn; unfold repeat1; by rewrite lookup_map, Hrow|].
    split; [apply length_tile|]. intros c j. apply lookup_tile.
  - split; [intros l Hl; by rewrite lookup_insert_ne|].
    intros input caches l h1 Hu.
    rewrite (update_state_frame _ _ _ _ _ _ self Hu); eauto.
Qed.

(** C6: [update_state] returns a reference to a new object that holds the
    source of [self], the tokens and the caches it was given; every object
    that existed before the call, [self] included, is unchanged.  The
    decoder's [forward] likewise returns a reference to a new object and
    changes no existing one. *)
Theorem update_state_pure h self s input caches :
  h !! self = Some (TDS s) ->
  (exists l h',
     update_state self input caches h = Ok (l, h') /\
     h !! l = None /\
     h' !! l = Some (TDS (mkState (src s) (Some input) (Some caches))) /\
     h' !! self = Some (TDS s) /\
     forall l0, is_Some (h !! l0) -> h' !! l0 = h !! l0) /\
  (forall fadd dec tgt memory_bank outputs state' attns h',
     forward R fadd dec tgt memory_bank self h = Ok (outputs, state', attns, h') ->
     h !! state' = None /\
     (exists s', h' !! state' = Some (TDS s') /\ src s' = src s) /\
     h' !! self = Some (TDS s) /\
     forall l0, is_Some (h !! l0) -> h' !! l0 = h !! l0).
Proof.
  intros Hs. split.
  - eexists _, _. split; [by apply update_state_ok|].
    split; [apply fresh_loc_not_in|].
    split; [apply lookup_insert_eq|].
    assert (Hfr : forall l0, is_Some (h !! l0) ->
      <[fresh_loc h := TDS (mkState (src s) (Some input) (Some caches))]> h !! l0
      = h !! l0).
    { intros l0. eapply update_state_frame. by apply update_state_ok. }
    split; [rewrite Hfr; eauto|done].
  - intros fadd dec tgt mb outputs state' attns h' Hf.
    apply forward_inv in Hf as (s1 & o & Hs1 & _ & _ & _ & Hu).
    rewrite Hs in Hs1. injection Hs1 as <-.
    pose proof (update_state_frame _ _ _ _ _ _ self Hu) as Hself.
    pose proof (fun l0 => update_state_frame _ _ _ _ _ _ l0 Hu) as Hfr.
    apply update_state_inv in Hu as (s2 & Hs2 & -> & ->).
    rewrite Hs in Hs2. injection Hs2 as <-.
    split; [apply fresh_loc_not_in|].
    split; [eexists; split; [apply lookup_insert_eq|done]|].
    split; [rewrite Hself; eauto|done].
Qed.
End StateProperties.

(** ** Transposition *)

Lemma size1_rect {A} (n : nat) (t : list (list A)) :
  rect n t -> t <> [] -> size1 t = n.
Proof.
  intros Hr Hne. destruct t as [|row t]; [done|].
  unfold size1. simpl. by inversion Hr.
Qed.

Lemma column_cons {A} (b : nat) (row : list A) (t : list (list A)) :
  column b (row :: t) = option_list (row !! b) ++ column b t.
Proof. reflexivity. Qed.

Lemma lookup_column {A} (n b j : nat) (t : list (list A)) :
  rect n t -> b < n -> column b t !! j = t !! j ≫= (.!! b).
Proof.
  intros Hr Hb. revert j. induction Hr as [|row t Hrow Hr IH]; intros j.
  - done.
  - rewrite column_cons.
    destruct (lookup_lt_is_Some_2 row b) as [x Hx]; [lia|].
    rewrite Hx. simpl. destruct j as [|j]; simpl; [done|]. apply IH.
Qed.

Lemma length_column {A} (n b : nat) (t : list (list A)) :
  rect n t -> b < n -> length (column b t) = length t.
Proof.
  intros Hr Hb. induction Hr as [|row t Hrow Hr IH]; [done|].
  rewrite column_cons, length_app, IH.
  destruct (lookup_lt_is_Some_2 row b) as [x Hx]; [lia|]. by rewrite Hx.
Qed.

Lemma length_transpose01 {A} (t : list (list A)) :
  length (transpose01 t) = size1 t.
Proof. unfold transpose01. by rewrite length_map, length_seq. Qed.

Lemma lookup_transpose01 {A} (b : nat) (t : list (list A)) :
  b < size1 t -> transpose01 t !! b = Some (column b t).
Proof.
  intros Hb. unfold transpose01. rewrite lookup_map, lookup_seq_lt by done.
  done.
Qed.

Lemma rect_transpose01 {A} (n : nat) (t : list (list A)) :
  rect n t -> rect (length t) (transpose01 t).
Proof.
  intros Hr. destruct (decide (t = [])) as [->|Hne]; [constructor|].
  unfold rect, transpose01. rewrite Forall_map. apply Forall_forall.
  intros b Hb%elem_of_seq. simpl.
  apply (length_column n); [done|]. rewrite (size1_rect n) in Hb by done. lia.
Qed.

(** ** The self-attention bias *)

Lemma lookup_tile_singleton {A} (k i : nat) (x : A) :
  i < k -> tile k [x] !! i = Some x.
Proof.
  intros Hi. pose proof (lookup_tile k i 0 [x]) as H. simpl in H.
  rewrite Nat.mul_1_r, Nat.add_0_r in H. apply H; lia.
Qed.

(** C7: the self-attention bias of batch entry [b] at query position [i]
    and key position [j] is the large negative constant when the key token
    is the padding token or the key lies after the query, and 0 otherwise;
    it is the sum of the padding mask and the local mask, compared with 0
    and scaled. *)
Theorem decoder_bias_entry (padding_idx : Z) (tgt_words : list (list Z))
    (tgt_len b i j : nat) (wrow : list Z) (w : Z) :
  tgt_words !! b = Some wrow -> length wrow = tgt_len ->
  wrow !! j = Some w -> i < tgt_len ->
  neg_inf = (- 10 ^ 9)%Z /\
  exists brows brow,
    decoder_bias_of padding_idx tgt_words (length tgt_words) tgt_len !! b
      = Some brows /\
    brows !! i = Some brow /\
    brow !! j = Some (if decide (w = padding_idx \/ i < j)
                      then neg_inf else 0%Z).
Proof.
  intros Hb Hlen Hj Hi. split; [reflexivity|].
  assert (Hjl : j < tgt_len) by (rewrite <- Hlen; by eapply lookup_lt_Some).
  assert (Hbl : b < length tgt_words) by (by eapply lookup_lt_Some).
  set (m := fun w0 : Z => if decide (w0 = padding_idx) then 1%Z else 0%Z).
  set (lm := fun i0 j0 : nat => if decide (i0 < j0) then 1%Z else 0%Z).
  set (sc := fun v : Z => ((if decide (0 < v)%Z then 1 else 0) * neg_inf)%Z).
  exists (map (map sc) (zip_with (zip_with Z.add) (tile tgt_len [map m wrow])
            (map (fun i0 => map (lm i0) (seq 0 tgt_len)) (seq 0 tgt_len)))).
  exists (map sc (zip_with Z.add (map m wrow) (map (lm i) (seq 0 tgt_len)))).
  split; [|split].
  - unfold decoder_bias_of, map3, zip3, get_local_mask, repeat1, unsqueeze1, eq_pad.
    rewrite lookup_map, lookup_zip_with, !lookup_map, Hb. simpl.
    rewrite lookup_tile_singleton by done. done.
  - rewrite lookup_map, lookup_zip_with, lookup_tile_singleton by done. simpl.
    rewrite lookup_map, lookup_seq_lt by done. done.
  - rewrite lookup_map, lookup_zip_with, !lookup_map, Hj. simpl.
    rewrite lookup_seq_lt by done. simpl. f_equal.
    unfold sc, m, lm, neg_inf.
    repeat case_decide; try lia; tauto.
Qed.

(** ** The decoder layer *)

Section LayerProperties.
Variable R : Type.
Variable fadd : R -> R -> R.
Implicit Types (self : DecoderLayer R) (x p : list (list (list R))).

Lemma DecoderLayer_run_calls self x enc sb eb prev ans attn all_inputs calls :
  DecoderLayer_run R fadd self x enc sb eb prev = Ok (ans, attn, all_inputs, calls) ->
  exists b1,
    self_attention_inputs R (ma_l1_prenorm R self x) sb prev = Ok (all_inputs, b1) /\
    calls = [ mkCall R MA_L1 (ma_l1_prenorm R self x) (Some all_inputs)
                (num_heads R self) b1;
              mkCall R MA_L2 (cross_query R fadd self x all_inputs b1) (Some enc)
                (num_heads R self) (Some eb) ] /\
    attn = snd (ma_l2 R self (cross_query R fadd self x all_inputs b1) (Some enc)
                  (num_heads R self) (Some eb)).
Proof.
  unfold DecoderLayer_run.
  destruct (self_attention_inputs R _ sb prev) as [[ai b1]|] eqn:Hs; [|done].
  simpl. fold (cross_query R fadd self x ai b1).
  destruct (ma_l2 R self (cross_query R fadd self x ai b1) (Some enc) (num_heads R self)
              (Some eb)) as [y attn0] eqn:Hm.
  intros [= <- <- <- <-]. exists b1. split; [done|]. split; [done|]. by rewrite Hm.
Qed.

End LayerProperties.

(** ** The checks of the decoder stack *)

Lemma aeq_cons (a : nat) (rest : list nat) :
  aeq (a :: rest) =
  if decide (Forall (eq a) rest) then Ok tt else Raise AssertionError.
Proof.
  simpl. destruct (forallb (Nat.eqb a) rest) eqn:E.
  - rewrite decide_True; [done|]. apply Forall_forall. intros x Hx.
    rewrite forallb_forall in E. apply Nat.eqb_eq, E. by apply list_elem_of_In.
  - rewrite decide_False; [done|]. intros HF.
    assert (forallb (Nat.eqb a) rest = true); [|congruence].
    apply forallb_forall. intros x Hx%list_elem_of_In. apply Nat.eqb_eq.
    rewrite Forall_forall in HF. by apply HF.
Qed.

Lemma size1_select_word (t : list (list token)) : size1 (select_word t) = size1 t.
Proof. destruct t as [|row t]; [done|]. unfold size1. simpl. by rewrite length_map. Qed.

Lemma words_batch (t : list (list token)) :
  size0 (transpose01 (select_word t)) = size1 t.
Proof. unfold size0. by rewrite length_transpose01, size1_select_word. Qed.

Lemma src_len_rect (n : nat) (t : list (list token)) :
  rect n t -> 0 < n -> src_len_of t = size0 t.
Proof.
  intros Hr Hn. unfold src_len_of, size0.
  destruct (decide (t = [])) as [->|Hne]; [done|].
  assert (Hr' : rect n (select_word t)).
  { unfold rect, select_word. rewrite Forall_map.
    eapply Forall_impl; [exact Hr|]. intros row. simpl. by rewrite length_map. }
  assert (Hs : size1 (select_word t) = n).
  { apply size1_rect; [done|]. by destruct t. }
  unfold size1 at 1. unfold transpose01. rewrite Hs.
  destruct n as [|n]; [lia|]. simpl.
  rewrite (length_column (S n)); [|done|lia].
  unfold select_word. by rewrite length_map.
Qed.

Section CheckProperties.
Variable R : Type.
Variable fadd : R -> R -> R.

Lemma forward_checks_cases (tgt : list (list token)) (mb : list (list (list R)))
    (s : TransformerDecoderState R) :
  forward_checks R tgt mb s =
  if decide (size1 tgt = size1 mb /\ size1 mb = size1 (src s) /\
             size0 mb = src_len_of (src s))
  then match previous_input s with
       | Some p => cat0 p tgt
       | None => Ok tgt
       end
  else Raise AssertionError.
Proof.
  unfold forward_checks. rewrite !aeq_cons, !words_batch.
  fold (src_len_of (src s)).
  destruct (decide (size1 tgt = size1 mb /\ size1 mb = size1 (src s) /\
                    size0 mb = src_len_of (src s))) as [(H1 & H2 & H3)|Hn].
  - rewrite !decide_True; [done| | |];
      repeat (apply Forall_cons; split; [congruence|]); apply Forall_nil_2.
  - destruct (decide (Forall (eq (size1 tgt)) [size1 mb])) as [F1|F1];
      simpl; [|done].
    destruct (decide (Forall (eq (size1 tgt))
                        [size1 mb; size1 (src s); size1 tgt])) as [F2|F2];
      simpl; [|done].
    destruct (decide (Forall (eq (size0 mb)) [src_len_of (src s)])) as [F3|F3];
      simpl; [|done].
    exfalso. apply Hn.
    apply Forall_cons in F2 as [E1 F2]. apply Forall_cons in F2 as [E2 _].
    apply Forall_cons in F3 as [E3 _].
    split; [done|]. split; [congruence|done].
Qed.
Lemma run_layers_app s (mb : list (list (list R))) db eb l1 l2 i acc :
  run_layers R fadd s mb db eb (l1 ++ l2) i acc =
  rbind (run_layers R fadd s mb db eb l1 i acc)
        (run_layers R fadd s mb db eb l2 (i + length l1)).
Proof.
  revert i acc. induction l1 as [|l l1 IH]; intros i acc; simpl.
  - by rewrite Nat.add_0_r.
  - destruct (layer_step R fadd s mb db eb acc i l) as [acc1|]; simpl; [|done].
    rewrite IH. by replace (S i + length l1) with (i + S (length l1)) by lia.
Qed.

Lemma run_layers_saved s (mb : list (list (list R))) db eb ls i out a saved calls
    out' a' saved' calls' :
  run_layers R fadd s mb db eb ls i (out, a, saved, calls)
    = Ok (out', a', saved', calls') ->
  length saved' = length saved + length ls /\
  (ls = [] -> a' = a).
Proof.
  revert i out a saved calls. induction ls as [|l ls IH];
    intros i out a saved calls; simpl.
  - intros [= <- <- <- <-]. split; [lia|done].
  - destruct (prev_layer_input_of R s i) as [prev|]; simpl; [|done].
    destruct (DecoderLayer_run R fadd l out mb db eb prev)
      as [[[[ans attn] al] cs]|]; simpl; [|done].
    intros H%IH. rewrite length_app in H. simpl in H. split; [lia|done].
Qed.

Lemma forward_body_inv self tgt (mb : list (list (list R))) s o :
  forward_body R fadd self tgt mb s = Ok o ->
  exists tgt' output attn saved calls,
    forward_checks R tgt mb s = Ok tgt' /\
    run_layers R fadd s (transpose01 mb) (self_bias R self tgt)
      (cross_bias R self s) (layer_stack R self) 0
      (decoder_input R self tgt' s, None, [], [])
      = Ok (output, Some attn, saved, calls) /\
    stack R saved = Ok saved /\
    o = mkOut R (transpose01 (layer_norm R self output)) tgt' saved
          (attns_of R (_copy R self) (transpose01 attn)) calls.
Proof.
  unfold forward_body.
  destruct (forward_checks R tgt mb s) as [tgt'|]; simpl; [|done].
  fold (decoder_input R self tgt' s) (cross_bias R self s) (self_bias R self tgt).
  destruct (run_layers R fadd s _ _ _ _ 0 _) as [[[[output attn] saved] calls]|]
    eqn:Hrun; simpl; [|done].
  destruct (stack R saved) as [saved'|] eqn:Hst; simpl; [|done].
  assert (saved' = saved) as ->.
  { unfold stack in Hst. destruct saved; [done|].
    destruct (forallb _ _); congruence. }
  destruct attn as [attn|]; simpl; [|done].
  intros [= <-]. exists tgt', output, attn, saved, calls. done.
Qed.


(** C4, as the code has it: [forward] raises in its checks, before the
    embeddings and the layers run, exactly when the state is not a
    [TransformerDecoderState], or the batch sizes of the target, the memory
    bank and the state's source differ, or the memory bank and the source
    differ in length, or the state's previous input cannot be concatenated
    with the target (line 210); in each of these cases [forward] raises.
    For a rectangular source the length the code compares is the number
    of source positions. *)
Theorem forward_fails_fast_iff (dec : TransformerDecoder R)
    (tgt : list (list token)) (mb : list (list (list R))) (state : nat)
    (h : gmap nat (pyobj R)) :
  (fails_fast R tgt mb (h !! state) = true <->
     (forall s, h !! state <> Some (TDS s)) \/
     exists s, h !! state = Some (TDS s) /\
       (~ (size1 tgt = size1 mb /\ size1 mb = size1 (src s)) \/
        size0 mb <> src_len_of (src s) \/
        exists p, previous_input s = Some p /\
          ~ (size1 p = size1 tgt /\ nfeat p = nfeat tgt))) /\
  (fails_fast R tgt mb (h !! state) = true ->
     exists e, forward R fadd dec tgt mb state h = Raise e) /\
  (forall s n, h !! state = Some (TDS s) -> rect n (src s) -> 0 < n ->
     src_len_of (src s) = size0 (src s)).
Proof.
  split; [|split].
  - unfold fails_fast. destruct (h !! state) as [[s|]|] eqn:Hs.
    + rewrite forward_checks_cases. split.
      * intros Hf. right. exists s. split; [done|].
        case_decide as Hd.
        -- destruct (previous_input s) as [p|] eqn:Hp; [|done].
           right. right. exists p. split; [done|].
           unfold cat0 in Hf. case_decide; [done|]. done.
        -- destruct (decide (size0 mb = src_len_of (src s))); [|tauto].
           left. tauto.
      * intros [Hno|(s' & [= <-] & Hc)]; [by destruct (Hno s)|].
        case_decide as Hd; [|done].
        destruct Hd as (H1 & H2 & H3).
        destruct Hc as [Hc|[Hc|(p & Hp & Hc)]]; [tauto|tauto|].
        rewrite Hp. unfold cat0. by rewrite decide_False.
    + split; [|done]. intros _. left. by intros s.
    + split; [|done]. intros _. left. by intros s.
  - unfold fails_fast, forward. destruct (h !! state) as [[s|]|]; [|eauto..].
    unfold forward_body.
    destruct (forward_checks R tgt mb s) as [t|e]; [done|]. simpl. eauto.
  - intros s n _ Hr Hn. by apply (src_len_rect n).
Qed.

End CheckProperties.

(** ** The attention maps *)

Section AttnProperties.
Variable R : Type.
Variable fadd : R -> R -> R.

Lemma lookup_attns_of (copy : bool) (attn : list (list (list R))) :
  attns_of R copy attn !! "std" = Some attn /\
  attns_of R copy attn !! "copy" = (if copy then Some attn else None).
Proof.
  unfold attns_of. destruct copy.
  - split; [|apply lookup_insert_eq].
    rewrite lookup_insert_ne by done. apply lookup_insert_eq.
  - split; [apply lookup_insert_eq|].
    rewrite lookup_insert_ne by done. by rewrite lookup_singleton_ne.
Qed.

End AttnProperties.

(** ** Shapes *)

Lemma size1_map_length {A} (t : list (list A)) : size1 t = hd 0 (map length t).
Proof. by destruct t. Qed.

Lemma map_length_zip_with2 {A B C} (f : A -> B -> C)
    (a : list (list A)) (b : list (list B)) :
  map length a = map length b ->
  map length (zip_with (zip_with f) a b) = map length a.
Proof.
  revert b. induction a as [|ra a IH]; intros [|rb b]; simpl; try done.
  intros [= Hr Ht]. rewrite IH by done. f_equal.
  rewrite length_zip_with. lia.
Qed.

Lemma rect_map_length {A B} (n : nat) (a : list (list A)) (b : list (list B)) :
  map length a = map length b -> rect n b -> rect n a.
Proof.
  unfold rect. revert b. induction a as [|ra a IH]; intros [|rb b]; simpl;
    try done.
  intros [= Hr Ht] Hb. apply Forall_cons in Hb as [Hb1 Hb2].
  constructor; [congruence|]. by apply (IH b).
Qed.

Section ShapeProperties.
Variable R : Type.
Variable fadd : R -> R -> R.

Lemma map_length_tadd (a b : list (list (list R))) :
  map length a = map length b -> map length (tadd R fadd a b) = map length a.
Proof. apply map_length_zip_with2. Qed.

Lemma DecoderLayer_run_dims (l : DecoderLayer R) x enc sb eb prev
    ans attn al calls :
  layer_keeps_dims R l ->
  DecoderLayer_run R fadd l x enc sb eb prev = Ok (ans, attn, al, calls) ->
  map length ans = map length x.
Proof.
  intros [K1 K2 K3 K4 K5 K6 K7 K8 K9]. unfold DecoderLayer_run.
  destruct (self_attention_inputs R _ sb prev) as [[ai b1]|]; simpl; [|done].
  set (x1 := tadd R fadd _ x).
  assert (H1 : map length x1 = map length x).
  { unfold x1. rewrite map_length_tadd; rewrite K7, K1, K4; done. }
  destruct (ma_l2 R l (ma_l2_prenorm R l x1) (Some enc) (num_heads R l) (Some eb))
    as [y attn0] eqn:Hm.
  intros [= <- _ _ _].
  assert (Hy : map length y = map length x1).
  { pose proof (K2 (ma_l2_prenorm R l x1) (Some enc) (num_heads R l) (Some eb)) as H.
    rewrite Hm in H. simpl in H. by rewrite H, K5. }
  set (x2 := tadd R fadd (ma_l2_postdropout R l y) x1).
  assert (H2 : map length x2 = map length x1).
  { unfold x2. rewrite map_length_tadd; rewrite K8; done. }
  rewrite map_length_tadd; rewrite K9, K3, K6; congruence.
Qed.

Lemma run_layers_dims s (mb : list (list (list R))) db eb ls i out a saved calls
    out' a' saved' calls' :
  Forall (layer_keeps_dims R) ls ->
  run_layers R fadd s mb db eb ls i (out, a, saved, calls)
    = Ok (out', a', saved', calls') ->
  map length out' = map length out.
Proof.
  intros Hk. revert i out a saved calls.
  induction Hk as [|l ls Hl Hk IH]; intros i out a saved calls; simpl.
  - by intros [= <- _ _ _].
  - destruct (prev_layer_input_of R s i) as [prev|]; simpl; [|done].
    destruct (DecoderLayer_run R fadd l out mb db eb prev)
      as [[[[ans attn] al] cs]|] eqn:Hrun; simpl; [|done].
    intros H%IH. rewrite H. by eapply DecoderLayer_run_dims.
Qed.

Lemma forward_checks_history tgt (mb : list (list (list R))) s tgt' :
  forward_checks R tgt mb s = Ok tgt' ->
  tgt' = default [] (previous_input s) ++ tgt.
Proof.
  rewrite forward_checks_cases. case_decide; [|done].
  destruct (previous_input s) as [p|]; simpl.
  - unfold cat0. case_decide; [|done]. by intros [= <-].
  - by intros [= <-].
Qed.

Lemma decoder_input_size1 (dec : TransformerDecoder R) tgt s n :
  emb_keeps_dims R (embeddings R dec) -> rect n tgt -> 0 < n ->
  size1 (decoder_input R dec (default [] (previous_input s) ++ tgt) s)
    = size0 tgt.
Proof.
  intros He Hr Hn. unfold decoder_input.
  set (emb := match previous_input s with
              | Some p => drop (size0 p) _
              | None => _
              end).
  assert (Hemb : map length emb = map length tgt).
  { unfold emb. destruct (previous_input s) as [p|]; simpl.
    - unfold size0. rewrite map_drop, He, map_app.
      rewrite <- (length_map length p). apply drop_app_length.
    - apply He. }
  clearbody emb. unfold size0.
  destruct tgt as [|row tgt].
  { destruct emb; [done|done]. }
  assert (Hre : rect n emb) by (by eapply rect_map_length).
  assert (Hne : emb <> []) by (by destruct emb).
  assert (Hlen : length emb = length (row :: tgt)).
  { by rewrite <- (length_map length emb), Hemb, length_map. }
  unfold size1 at 1. unfold transpose01.
  rewrite (size1_rect n) by done.
  destruct n as [|n]; [lia|]. simpl hd.
  rewrite (length_column (S n)); [done|done|lia].
Qed.
(** C3: a call of [forward] with [t] new target tokens returns outputs of
    length [t], whatever the number of tokens the state already holds; the
    state it returns holds the history followed by the new tokens. *)
Theorem outputs_length (dec : TransformerDecoder R) (tgt : list (list token))
    (mb : list (list (list R))) (state : nat) (h : gmap nat (pyobj R))
    (s : TransformerDecoderState R) (n : nat) outputs state' attns h' :
  decoder_keeps_dims R dec -> rect n tgt -> 0 < n ->
  h !! state = Some (TDS s) ->
  forward R fadd dec tgt mb state h = Ok (outputs, state', attns, h') ->
  size0 outputs = size0 tgt /\
  exists s' history,
    h' !! state' = Some (TDS s') /\
    previous_input s' = Some history /\
    history = default [] (previous_input s) ++ tgt /\
    size0 history = size0 (default [] (previous_input s)) + size0 tgt.
Proof.
  intros [Ke Kl Kn] Hr Hn Hs Hf.
  apply forward_inv in Hf as (s1 & o & Hs1 & Hb & -> & -> & Hu).
  rewrite Hs in Hs1. injection Hs1 as <-.
  apply forward_body_inv in Hb
    as (tgt' & output & attn & saved & calls & Hc & Hrun & Hst & ->).
  apply forward_checks_history in Hc as ->. simpl in *.
  split.
  - apply run_layers_dims in Hrun; [|done].
    unfold size0 at 1. rewrite length_transpose01, size1_map_length, Kn, Hrun.
    rewrite <- size1_map_length. by apply (decoder_input_size1 dec tgt s n).
  - apply update_state_inv in Hu as (s2 & Hs2 & -> & ->).
    eexists _, _. split; [apply lookup_insert_eq|]. simpl.
    split; [done|]. split; [done|]. unfold size0. by rewrite length_app.
Qed.
End ShapeProperties.

(** C4, counterexample: after one decoding step the state is expanded to a
    beam of two and the next step is given a target and a memory bank of
    batch size two.  The state is a [TransformerDecoderState], the three
    batch sizes and the two lengths agree, and [forward] still raises in
    its checks, at the concatenation of line 210. *)
Lemma forward_raises_after_beam_repeat :
  exists outs st attns h1 h2 s,
    forward Z Z.add (Small.decoder 1 false) Small.tgtA Small.mbA 0 Small.heapA
      = Ok (outs, st, attns, h1) /\
    repeat_beam_size_times st 2 h1 = Ok h2 /\
    h2 !! st = Some (TDS s) /\
    size1 Small.tgtB = size1 Small.mbB /\
    size1 Small.mbB = size1 (src s) /\
    size0 Small.mbB = size0 (src s) /\
    fails_fast Z Small.tgtB Small.mbB (h2 !! st) = true /\
    forward Z Z.add (Small.decoder 1 false) Small.tgtB Small.mbB st h2
      = Raise RuntimeError.
Proof.
  do 6 eexists.
  split; [vm_compute; reflexivity|].
  split; [vm_compute; reflexivity|].
  split; [vm_compute; reflexivity|].
  vm_compute. auto.
Qed.

(** ** The small instance satisfies the shape contracts *)

Lemma map_length_imap2 {A B} (g : nat -> nat -> A -> B) (t : list (list A)) :
  map length (imap (fun b rows => imap (g b) rows) t) = map length t.
Proof.
  revert g. induction t as [|row t IH]; intros g; simpl; [done|].
  rewrite length_imap. f_equal. apply (IH (fun b => g (S b))).
Qed.

Lemma small_attention_dims : attn_keeps_dims Z Small.attention.
Proof.
  intros q m h b. unfold Small.attention. simpl.
  apply (map_length_imap2
           (fun b0 r q0 =>
              Small.attend_row q0
                (allowed (default [] (default q m !! b0))
                   (bias_row b b0 r (length (default [] (default q m !! b0))))))).
Qed.

Lemma small_layer_dims : layer_keeps_dims Z Small.layer.
Proof.
  split; try (intros x; reflexivity); apply small_attention_dims.
Qed.

Lemma map_length_imap_map {A B} (g : nat -> A -> B) (t : list (list A)) :
  map length (imap (fun i row => map (g i) row) t) = map length t.
Proof.
  revert g. induction t as [|row t IH]; intros g; simpl; [done|].
  rewrite length_map. f_equal. apply (IH (fun i => g (S i))).
Qed.

Lemma small_embed_dims : emb_keeps_dims Z Small.table.
Proof.
  intros t. simpl. unfold Small.embed.
  apply (map_length_imap_map (fun i t0 => [word t0; Z.of_nat i])).
Qed.

Lemma small_decoder_dims (n : nat) (copy : bool) :
  decoder_keeps_dims Z (Small.decoder n copy).
Proof.
  split; simpl.
  - apply small_embed_dims.
  - apply Forall_forall. intros l Hl%elem_of_replicate_inv. subst.
    apply small_layer_dims.
  - intros x. reflexivity.
Qed.

(** ** The theorems at concrete inputs *)

Lemma repeat_beam_size_times_in_place_witness :
  exists h' s',
    repeat_beam_size_times 0 2 Small.heap0 = Ok h' /\
    h' !! 0 = Some (TDS s') /\
    src s' = [[Small.tok 5; Small.tok 6; Small.tok 5; Small.tok 6];
              [Small.tok 7; Small.tok 1; Small.tok 7; Small.tok 1]].
Proof.
  destruct (repeat_beam_size_times_in_place Z Small.heap0 0
              (init_state Small.src0) 2 eq_refl)
    as (h' & s' & Hr & Hs & _).
  exists h', s'. split; [exact Hr|]. split; [exact Hs|].
  vm_compute in Hr. injection Hr as <-. vm_compute in Hs.
  injection Hs as <-. reflexivity.
Defined.

Lemma update_state_pure_witness :
  exists l h',
    update_state 0 Small.tgt0 [] Small.heap0 = Ok (l, h') /\
    h' !! 0 = Some (TDS (init_state (R := Z) Small.src0)).
Proof.
  destruct (update_state_pure Z Small.heap0 0 (init_state Small.src0)
              Small.tgt0 [] eq_refl)
    as [(l & h' & Hu & _ & _ & Hs & _) _].
  exists l, h'. split; [exact Hu|exact Hs].
Defined.

Lemma decoder_bias_entry_witness :
  exists brows brow,
    decoder_bias_of 1 [[2; 1; 3]]%Z 1 3 !! 0 = Some brows /\
    brows !! 2 = Some brow /\
    brow !! 1 = Some neg_inf.
Proof.
  destruct (decoder_bias_entry 1 [[2; 1; 3]]%Z 3 0 2 1 [2; 1; 3]%Z 1
              eq_refl eq_refl eq_refl ltac:(lia))
    as (_ & brows & brow & H1 & H2 & H3).
  exists brows, brow. split; [exact H1|]. split; [exact H2|exact H3].
Defined.


Lemma outputs_length_witness :
  exists outputs state' attns h',
    forward Z Z.add (Small.decoder 2 true) Small.tgt_next Small.memory_bank0
      Small.state1 Small.heap1 = Ok (outputs, state', attns, h') /\
    size0 outputs = 2.
Proof.
  destruct (forward Z Z.add (Small.decoder 2 true) Small.tgt_next
              Small.memory_bank0 Small.state1 Small.heap1)
    as [[[[outputs state'] attns] h']|e] eqn:E;
    [|vm_compute in E; discriminate E].
  exists outputs, state', attns, h'. split; [reflexivity|].
  assert (Hs : exists s, Small.heap1 !! Small.state1 = Some (TDS s)).
  { vm_compute. eexists. reflexivity. }
  destruct Hs as [s Hs].
  exact (proj1 (outputs_length Z Z.add (Small.decoder 2 true) Small.tgt_next
                  Small.memory_bank0 Small.state1 Small.heap1 s 2
                  outputs state' attns h' (small_decoder_dims 2 true)
                  ltac:(repeat constructor) ltac:(lia) Hs E)).
Defined.


(** ** Names the constructors load *)

Section NameProperties.
Import Names.

Ltac run_loads :=
  repeat (cbn [exec exec_stmt eval rbind call super_init self_attr multihead
               layer_norm_call dropout_call];
          match goal with
          | |- context [load ?l ?x] =>
              let r := eval vm_compute in (load l x) in
              change (load l x) with r
          | |- context [match ?ext ?e with Ok _ => _ | Raise _ => _ end] =>
              destruct (ext e) as [[]|]; [|reflexivity]
          | |- context [rbind (?ext ?e) _] =>
              destruct (ext e) as [[]|]; [|reflexivity]
          end).

Lemma new_PositionwiseFeedForward_fails (extern : expr -> result unit) :
  is_ok (new_PositionwiseFeedForward extern) = false.
Proof.
  unfold new_PositionwiseFeedForward, PositionwiseFeedForward_init,
    PositionwiseFeedForward_params.
  run_loads. reflexivity.
Qed.
Ltac run_loads_ok H :=
  repeat (cbn [exec exec_stmt eval rbind call super_init self_attr multihead
               layer_norm_call dropout_call];
          match goal with
          | |- context [load ?l ?x] =>
              let r := eval vm_compute in (load l x) in
              change (load l x) with r
          | |- _ => rewrite H
          end).

Lemma new_DecoderLayer_ok (extern : expr -> result unit) :
  (forall e, extern e = Ok tt) -> new_DecoderLayer extern = Ok tt.
Proof.
  intros H. unfold new_DecoderLayer, DecoderLayer_init, DecoderLayer_params.
  run_loads_ok H. reflexivity.
Qed.

Lemma new_TransformerDecoder_fails (extern : expr -> result unit) (n : nat) :
  is_ok (new_TransformerDecoder extern n true) = false.
Proof.
  unfold new_TransformerDecoder, TransformerDecoder_init,
    TransformerDecoder_params.
  destruct (new_DecoderLayer extern) as [[]|]; destruct n; run_loads; reflexivity.
Qed.

(** C10: [onmt] is neither a global of the module nor a builtin, so the
    constructor of [PositionwiseFeedForward] raises [NameError] when it
    reaches [onmt.modules.LayerNorm], and so does the constructor of
    [TransformerDecoder] with [copy_attn] set, at
    [onmt.modules.GlobalAttention]; whatever the calls into the imported
    modules do, neither constructor returns.  No other class of the file
    loads the name [PositionwiseFeedForward].  Without [copy_attn] the
    constructor of [TransformerDecoder] returns. *)
Theorem onmt_never_bound (extern : expr -> result unit) (n : nat) :
  (forall e, extern e = Ok tt) ->
  ("onmt" ∉ module_globals) /\
  ("onmt" ∉ builtins) /\
  new_PositionwiseFeedForward extern = Raise (NameError "onmt") /\
  (forall ext, is_ok (new_PositionwiseFeedForward ext) = false) /\
  ("PositionwiseFeedForward" ∉ loads_outside_feed_forward) /\
  new_TransformerDecoder extern n true = Raise (NameError "onmt") /\
  (forall ext, is_ok (new_TransformerDecoder ext n true) = false) /\
  new_TransformerDecoder extern n false = Ok tt.
Proof.
  intros H.
  split; [apply (bool_decide_eq_false_1 _); vm_compute; reflexivity|].
  split; [apply (bool_decide_eq_false_1 _); vm_compute; reflexivity|].
  split.
  { unfold new_PositionwiseFeedForward, PositionwiseFeedForward_init,
      PositionwiseFeedForward_params.
    run_loads_ok H. reflexivity. }
  split; [apply new_PositionwiseFeedForward_fails|].
  split; [apply (bool_decide_eq_false_1 _); vm_compute; reflexivity|].
  split.
  { unfold new_TransformerDecoder, TransformerDecoder_init,
      TransformerDecoder_params.
    rewrite (new_DecoderLayer_ok extern H).
    destruct n; run_loads_ok H; reflexivity. }
  split; [intros ext; apply new_TransformerDecoder_fails|].
  unfold new_TransformerDecoder, TransformerDecoder_init,
    TransformerDecoder_params.
  rewrite (new_DecoderLayer_ok extern H).
  destruct n; run_loads_ok H; reflexivity.
Qed.

Lemma onmt_never_bound_witness :
  new_PositionwiseFeedForward (fun _ => Ok tt) = Raise (NameError "onmt") /\
  new_TransformerDecoder (fun _ => Ok tt) 6 true = Raise (NameError "onmt").
Proof.
  destruct (onmt_never_bound (fun _ => Ok tt) 6 (fun _ => eq_refl))
    as (_ & _ & H1 & _ & _ & H2 & _).
  split; [exact H1|exact H2].
Defined.
End NameProperties.

(** ** Indexed maps *)

Lemma imap_map {A B C} (f : nat -> B -> C) (g : A -> B) (l : list A) :
  imap f (map g l) = imap (fun i a => f i (g a)) l.
Proof.
  revert f. induction l as [|a l IH]; intros f; simpl; [done|].
  f_equal. apply IH.
Qed.

Lemma map_imap {A B C} (g : B -> C) (f : nat -> A -> B) (l : list A) :
  map g (imap f l) = imap (fun i a => g (f i a)) l.
Proof.
  revert f. induction l as [|a l IH]; intros f; simpl; [done|].
  f_equal. apply IH.
Qed.

Lemma zip_with_imap_l {A B C} (g : B -> A -> C) (h : nat -> A -> B) (l : list A) :
  zip_with g (imap h l) l = imap (fun i a => g (h i a) a) l.
Proof.
  revert h. induction l as [|a l IH]; intros h; simpl; [done|].
  f_equal. apply IH.
Qed.

Lemma map_as_imap {A B} (g : A -> B) (l : list A) :
  map g l = imap (fun _ => g) l.
Proof. induction l as [|a l IH]; simpl; [done|]. f_equal. exact IH. Qed.


(** ** A layer, position by position *)

Section PositionProperties.
Variable R : Type.
Variable fadd : R -> R -> R.

End PositionProperties.

(** ** Rows of the self-attention bias *)

Lemma decoder_bias_rows (padding_idx : Z) (tgt_words : list (list Z))
    (tgt_len b : nat) (words : list Z) :
  tgt_words !! b = Some words -> length words = tgt_len ->
  decoder_bias_of padding_idx tgt_words (length tgt_words) tgt_len !! b =
    Some (map (causal_row padding_idx words) (seq 0 tgt_len)).
Proof.
  intros Hb Hlen.
  assert (Hbl : b < length tgt_words) by (by eapply lookup_lt_Some).
  unfold decoder_bias_of, map3, zip3, get_local_mask, repeat1, unsqueeze1, eq_pad.
  rewrite lookup_map, lookup_zip_with, !lookup_map, Hb. simpl.
  rewrite lookup_tile_singleton by done. simpl. f_equal.
  apply list_eq. intros r.
  rewrite !lookup_map, lookup_zip_with.
  destruct (decide (r < tgt_len)) as [Hr|Hr].
  - rewrite lookup_tile_singleton by done. simpl.
    rewrite lookup_map, lookup_seq_lt by done. simpl.
    unfold causal_row. by rewrite Hlen.
  - rewrite (lookup_seq_ge 0 tgt_len r) by lia. simpl.
    destruct (tile tgt_len _ !! r); simpl; [|done].
    rewrite lookup_map, (lookup_seq_ge 0 tgt_len r) by lia. done.
Qed.

Lemma bias_row_causal (padding_idx : Z) (tgt_words : list (list Z))
    (tgt_len b r klen : nat) (words : list Z) :
  tgt_words !! b = Some words -> length words = tgt_len -> r < tgt_len ->
  bias_row (Some (decoder_bias_of padding_idx tgt_words (length tgt_words) tgt_len))
    b r klen = causal_row padding_idx words r.
Proof.
  intros Hb Hlen Hr. unfold bias_row.
  rewrite (decoder_bias_rows _ _ _ _ _ Hb Hlen).
  destruct tgt_len as [|[|n]]; [lia| |].
  - simpl. by replace r with 0 by lia.
  - simpl. destruct r as [|[|r]]; simpl; [done|done|].
    rewrite lookup_map, lookup_seq_lt by lia. done.
Qed.


Lemma allowed_nil_r {A} (keys : list A) : allowed keys [] = [].
Proof. by destruct keys. Qed.


(** The keys a causal row allows lie among the first [r + 1], and are
    those whose word is not the padding word. *)

Lemma allowed_causal_from {A} (padding_idx : Z) (o r : nat) (words : list Z)
    (keys : list A) :
  allowed keys
    (map (fun v => ((if decide (0 < v)%Z then 1 else 0) * neg_inf)%Z)
       (zip_with Z.add
          (map (fun w => if decide (w = padding_idx) then 1%Z else 0%Z) words)
          (map (fun j => if decide (r < j) then 1%Z else 0%Z)
               (seq o (length words))))) =
  allowed (take (S r - o) keys) (pad_row padding_idx (take (S r - o) words)).
Proof.
  revert o keys. induction words as [|w words IH]; intros o keys; simpl.
  - rewrite take_nil. simpl. by rewrite !allowed_nil_r.
  - destruct keys as [|k keys]; [by rewrite take_nil|].
    destruct (decide (r < o)) as [Hlt|Hge].
    + replace (S r - o) with 0 by lia. simpl.
      rewrite (IH (S o) keys). replace (S r - S o) with 0 by lia. simpl.
      unfold neg_inf. repeat case_decide; try lia; done.
    + replace (S r - o) with (S (r - o)) by lia. simpl.
      rewrite (IH (S o) keys). replace (S r - S o) with (r - o) by lia.
      unfold neg_inf. repeat case_decide; try lia; done.
Qed.

Lemma allowed_causal_row {A} (padding_idx : Z) (r : nat) (words : list Z)
    (keys : list A) :
  allowed keys (causal_row padding_idx words r) =
  allowed (take (S r) keys) (pad_row padding_idx (take (S r) words)).
Proof.
  unfold causal_row. rewrite allowed_causal_from. by rewrite Nat.sub_0_r.
Qed.

(** ** The stack without cache, position by position *)


Section ReferenceProperties.
Variable R : Type.
Variable fadd : R -> R -> R.
Variable padding_idx : Z.



Lemma prev_layer_input_of_None (s : TransformerDecoderState R) (i : nat) :
  previous_input s = None -> prev_layer_input_of R s i = Ok None.
Proof. intros H. unfold prev_layer_input_of. by rewrite H. Qed.


(** Causality of the stack on one batch entry: the first [k] positions of
    the result depend on the first [k] positions and words only. *)
Lemma ref_layer_take (k : nat) words words' cross (M : layer_model R) xs xs' :
  take k words = take k words' -> take k xs = take k xs' ->
  take k (ref_layer R fadd padding_idx words cross M xs) =
  take k (ref_layer R fadd padding_idx words' cross M xs').
Proof.
  intros Hw Hx. apply list_eq. intros r.
  destruct (decide (r < k)) as [Hr|Hr].
  - rewrite !lookup_take_lt by done. unfold ref_layer.
    rewrite !list_lookup_imap.
    assert (Hxr : xs !! r = xs' !! r).
    { rewrite <- (lookup_take_lt xs k r), <- (lookup_take_lt xs' k r) by done.
      by rewrite Hx. }
    rewrite <- Hxr. destruct (xs !! r) as [xr|]; simpl; [|done].
    do 2 f_equal. rewrite !allowed_causal_row.
    assert (Ht : forall {A} (l l' : list A),
               take k l = take k l' -> take (S r) l = take (S r) l').
    { intros A l l' E.
      replace (S r) with (min (S r) k) by lia.
      by rewrite <- !take_take, E. }
    rewrite (Ht _ words words') by done.
    rewrite <- !map_take. rewrite (Ht _ xs xs') by done. done.
  - rewrite !lookup_take_ge by lia. done.
Qed.

Lemma ref_stack_take (k : nat) words words' cross (Ms : list (layer_model R))
    xs xs' :
  take k words = take k words' -> take k xs = take k xs' ->
  take k (ref_stack R fadd padding_idx words cross Ms xs) =
  take k (ref_stack R fadd padding_idx words' cross Ms xs').
Proof.
  intros Hw. unfold ref_stack. revert xs xs'.
  induction Ms as [|M Ms IH]; intros xs xs' Hx; simpl; [done|].
  apply IH. by apply ref_layer_take.
Qed.
End ReferenceProperties.

(** ** Prefixes and transposition *)

Lemma take_imap {A B} (f : nat -> A -> B) (k : nat) (l : list A) :
  take k (imap f l) = imap f (take k l).
Proof.
  revert f k. induction l as [|a l IH]; intros f [|k]; simpl; try done.
  f_equal. apply IH.
Qed.

Lemma take_column {A} (n b k : nat) (t : list (list A)) :
  rect n t -> b < n -> take k (column b t) = column b (take k t).
Proof.
  intros Hr Hb. revert k. induction Hr as [|row t Hrow Hr IH]; intros k.
  - by destruct k.
  - destruct k as [|k]; [done|]. simpl take at 2. rewrite !column_cons.
    destruct (lookup_lt_is_Some_2 row b) as [v Hv]; [lia|].
    rewrite Hv. simpl. by rewrite IH.
Qed.

Lemma column_ext {A} (i : nat) (t t' : list (list A)) :
  length t = length t' ->
  (forall b row row', t !! b = Some row -> t' !! b = Some row' ->
     row !! i = row' !! i) ->
  column i t = column i t'.
Proof.
  revert t'. induction t as [|row t IH]; intros [|row' t'] Hlen H; try done.
  rewrite !column_cons. simpl in Hlen. f_equal.
  - f_equal. by apply (H 0).
  - apply IH; [lia|]. intros b r r' Hb Hb'. by apply (H (S b)).
Qed.

Lemma rect_take {A} (n k : nat) (t : list (list A)) :
  rect n t -> rect n (take k t).
Proof. unfold rect. apply Forall_take. Qed.

Lemma rect_select_word (n : nat) (t : list (list token)) :
  rect n t -> rect n (select_word t).
Proof.
  unfold rect, select_word. rewrite Forall_map. intros Hr.
  eapply Forall_impl; [exact Hr|]. intros row. simpl. by rewrite length_map.
Qed.

Lemma rect_imap_map {A B} (n : nat) (f : nat -> A -> B) (t : list (list A)) :
  rect n t -> rect n (imap (fun i row => map (f i) row) t).
Proof.
  unfold rect. intros Hr. apply Forall_lookup. intros i row.
  rewrite list_lookup_imap. destruct (t !! i) as [r0|] eqn:Hi; simpl; [|done].
  intros [= <-]. rewrite length_map. rewrite Forall_lookup in Hr. by eapply Hr.
Qed.

Lemma size1_imap_map {A B} (f : nat -> A -> B) (t : list (list A)) :
  size1 (imap (fun i row => map (f i) row) t) = size1 t.
Proof. destruct t as [|row t]; [done|]. unfold size1. simpl. apply length_map. Qed.

Lemma rect_transpose01_len {A} (n : nat) (t : list (list A)) :
  rect n t -> Forall (fun col => length col = length t) (transpose01 t).
Proof. apply rect_transpose01. Qed.

(** ** The decoder without cache, position by position *)

Section FullRun.
Variable R : Type.
Variable fadd : R -> R -> R.




Lemma length_full_positions (dec : TransformerDecoder R) Ms ef tgt
    (mb : list (list (list R))) s :
  length (full_positions R fadd dec Ms ef tgt mb s) = size1 tgt.
Proof.
  unfold full_positions.
  by rewrite length_imap, length_transpose01, size1_imap_map.
Qed.

Lemma lookup_transpose01_ge {A} (i : nat) (t : list (list A)) :
  size1 t <= i -> transpose01 t !! i = None.
Proof.
  intros H. apply lookup_ge_None_2. by rewrite length_transpose01.
Qed.



End FullRun.

(** ** The small instance satisfies the contracts *)

Lemma map_map_id {A} (x : list (list A)) : map (map id) x = x.
Proof.
  induction x as [|row x IH]; simpl; [done|]. by rewrite IH, map_id.
Qed.




(** ** One step on a cached state, position by position *)




Section Incremental.
Variable R : Type.
Variable fadd : R -> R -> R.
Variable padding_idx : Z.





End Incremental.

(** ** One position of a target, embedded and transposed *)






(** ** The stack on every batch entry *)


Section Steps.
Variable R : Type.
Variable fadd : R -> R -> R.
Variable padding_idx : Z.







End Steps.

(** ** One call of the decoder at step [i] *)

Section StepForward.
Variable R : Type.
Variable fadd : R -> R -> R.






End StepForward.


(** ** The encoder *)

Lemma length_column_map_length {A B} (j : nat) (a : list (list A))
    (b : list (list B)) :
  map length a = map length b -> length (column j a) = length (column j b).
Proof.
  revert b. induction a as [|ra a IH]; intros [|rb b] H; try done.
  simpl in H. injection H as Hr Ht.
  rewrite !column_cons, !length_app, (IH b Ht). f_equal.
  destruct (ra !! j) as [x|] eqn:Ha, (rb !! j) as [y|] eqn:Hb; simpl; try done.
  - apply lookup_lt_Some in Ha. apply lookup_ge_None in Hb. lia.
  - apply lookup_lt_Some in Hb. apply lookup_ge_None in Ha. lia.
Qed.

Lemma map_length_transpose01 {A B} (a : list (list A)) (b : list (list B)) :
  map length a = map length b ->
  map length (transpose01 a) = map length (transpose01 b).
Proof.
  intros H. unfold transpose01. rewrite !size1_map_length, H, !map_map.
  apply map_ext. intros j. by apply length_column_map_length.
Qed.

Lemma map_length_rect {A} (n : nat) (t : list (list A)) :
  rect n t -> map length t = replicate (length t) n.
Proof.
  intros Hr. induction Hr as [|row t Hrow Hr IH]; simpl; [done|].
  by rewrite Hrow, IH.
Qed.

Lemma map_length_transpose01_rect {A} (n : nat) (t : list (list A)) :
  rect n t -> t <> [] ->
  map length (transpose01 t) = replicate n (length t).
Proof.
  intros Hr Hne.
  rewrite (map_length_rect (length t)) by by eapply rect_transpose01.
  by rewrite length_transpose01, (size1_rect n).
Qed.

(** Transposing twice gives back the shape of a rectangular tensor with a
    non-empty second axis. *)
Lemma map_length_transpose01_twice {A} (n : nat) (t : list (list A)) :
  rect n t -> 0 < n ->
  map length (transpose01 (transpose01 t)) = map length t.
Proof.
  intros Hr Hn. destruct (decide (t = [])) as [->|Hne]; [done|].
  assert (Hne' : transpose01 t <> []).
  { intros E. apply (f_equal length) in E.
    rewrite length_transpose01, (size1_rect n) in E by done. simpl in E. lia. }
  rewrite (map_length_transpose01_rect (length t)); [|by eapply rect_transpose01|done].
  rewrite length_transpose01, (size1_rect n) by done.
  by rewrite (map_length_rect n).
Qed.

Section EncoderProperties.
Variable R : Type.
Variable fadd : R -> R -> R.

Lemma EncoderLayer_forward_dims (l : Encoder.EncoderLayer R)
    (x : list (list (list R))) (bias : list (list (list Z))) :
  Encoder.layer_keeps_dims R l ->
  map length (Encoder.EncoderLayer_forward R fadd l x bias) = map length x.
Proof.
  intros [K1 K2 K3 K4 K5 K6]. unfold Encoder.EncoderLayer_forward.
  set (x1 := tadd R fadd _ x).
  assert (H1 : map length x1 = map length x).
  { unfold x1. rewrite map_length_tadd; rewrite K5, K1, K3; done. }
  rewrite map_length_tadd; rewrite K6, K2, K4; congruence.
Qed.

Lemma encoder_layers_dims (ls : list (Encoder.EncoderLayer R))
    (x : list (list (list R))) (bias : list (list (list Z))) :
  Forall (Encoder.layer_keeps_dims R) ls ->
  map length (foldl (fun out layer =>
                       Encoder.EncoderLayer_forward R fadd layer out bias) x ls)
    = map length x.
Proof.
  intros Hk. revert x. induction Hk as [|l ls Hl Hk IH]; intros x; simpl.
  - done.
  - rewrite IH. by apply EncoderLayer_forward_dims.
Qed.

Lemma encoder_checks_pass (enc : Encoder.TransformerEncoder R)
    (input : list (list token)) :
  emb_keeps_dims R (Encoder.embeddings R enc) ->
  let emb := emb_call R (Encoder.embeddings R enc) input in
  let words := transpose01 (select_word input) in
  aeq [size0 (transpose01 emb); size0 words] = Ok tt /\
  aeq [size1 (transpose01 emb); size1 words] = Ok tt.
Proof.
  intros He emb words.
  assert (Hw : map length (select_word input) = map length input).
  { unfold select_word. rewrite map_map. apply map_ext. intros row.
    apply length_map. }
  assert (Hs : map length (transpose01 emb) = map length words).
  { apply map_length_transpose01. unfold emb. by rewrite He, Hw. }
  rewrite !aeq_cons. split; rewrite decide_True; try done.
  - repeat constructor. unfold size0.
    by rewrite <- (length_map length (transpose01 emb)), Hs, length_map.
  - repeat constructor. by rewrite !size1_map_length, Hs.
Qed.

(** X2: The encoder raises exactly when the inherited [_check_args] raises: the
    checks of lines 149-152 compare the embeddings with the words they were
    computed from and never fail for embeddings that return one vector per
    token. *)
Theorem encoder_forward_raises_iff (enc : Encoder.TransformerEncoder R)
    (input : list (list token)) (lengths : option (list nat))
    (hidden : option (list (list (list R)))) (e : exn) :
  emb_keeps_dims R (Encoder.embeddings R enc) ->
  Encoder.forward R fadd enc input lengths hidden = Raise e <->
  Encoder._check_args R enc input lengths hidden = Raise e.
Proof.
  intros He. unfold Encoder.forward.
  destruct (Encoder._check_args R enc input lengths hidden) as [[]|e0];
    cbn [rbind]; [|split; intros [= ->]; reflexivity].
  destruct (encoder_checks_pass enc input He) as [-> ->]. cbn [rbind].
  split; intros H; discriminate H.
Qed.

(** X1: The memory bank of the encoder has the shape of its input: one entry per
    source position, each with one vector per batch entry; the first
    component is the embedding of the input. *)
Theorem encoder_forward_shape (enc : Encoder.TransformerEncoder R)
    (input : list (list token)) (lengths : option (list nat))
    (hidden : option (list (list (list R)))) (n : nat) :
  Encoder.encoder_keeps_dims R enc -> rect n input -> 0 < n ->
  Encoder._check_args R enc input lengths hidden = Ok tt ->
  exists mb,
    Encoder.forward R fadd enc input lengths hidden
      = Ok (emb_call R (Encoder.embeddings R enc) input, mb) /\
    size0 mb = size0 input /\ rect n mb.
Proof.
  intros [Ke Kl Kn] Hr Hn Hc. unfold Encoder.forward. rewrite Hc. cbn [rbind].
  destruct (encoder_checks_pass enc input Ke) as [-> ->]. cbn [rbind].
  eexists. split; [reflexivity|].
  set (out := Encoder.layer_norm R enc _).
  assert (Ho : map length (transpose01 out) = map length input).
  { rewrite <- (map_length_transpose01_twice n input Hr Hn).
    apply map_length_transpose01. unfold out.
    rewrite Kn, encoder_layers_dims by done.
    apply map_length_transpose01, Ke. }
  split.
  - unfold size0. by rewrite <- (length_map length), Ho, length_map.
  - by eapply rect_map_length.
Qed.
End EncoderProperties.

(** ** The encoder and the decoder together *)

Section EncoderDecoder.
Variable R : Type.
Variable fadd : R -> R -> R.

Lemma encoder_forward_dims (enc : Encoder.TransformerEncoder R)
    (input : list (list token)) (lengths : option (list nat))
    (hidden : option (list (list (list R)))) (n : nat)
    (emb mb : list (list (list R))) :
  Encoder.encoder_keeps_dims R enc -> rect n input -> 0 < n ->
  Encoder.forward R fadd enc input lengths hidden = Ok (emb, mb) ->
  map length mb = map length input.
Proof.
  intros [Ke Kl Kn] Hr Hn. unfold Encoder.forward.
  destruct (Encoder._check_args R enc input lengths hidden) as [[]|e0];
    cbn [rbind]; [|done].
  destruct (encoder_checks_pass R enc input Ke) as [-> ->]. cbn [rbind].
  intros [= _ <-].
  rewrite <- (map_length_transpose01_twice n input Hr Hn).
  apply map_length_transpose01.
  rewrite Kn, encoder_layers_dims by done.
  apply map_length_transpose01, Ke.
Qed.

(** X3: The memory bank the encoder returns for a source passes the checks of
    the decoder on the state initialised with that source, for every target
    with the batch size of the source. *)
Theorem encoder_output_passes_decoder_checks
    (enc : Encoder.TransformerEncoder R) (input : list (list token))
    (lengths : option (list nat)) (hidden : option (list (list (list R))))
    (n : nat) (emb mb : list (list (list R))) (tgt : list (list token)) :
  Encoder.encoder_keeps_dims R enc -> rect n input -> 0 < n ->
  Encoder.forward R fadd enc input lengths hidden = Ok (emb, mb) ->
  size1 tgt = size1 input ->
  forward_checks R tgt mb (init_state input) = Ok tgt.
Proof.
  intros Kd Hr Hn Hf Ht.
  pose proof (encoder_forward_dims enc input lengths hidden n emb mb
                Kd Hr Hn Hf) as Hd.
  rewrite forward_checks_cases. simpl. rewrite decide_True; [done|].
  split; [|split].
  - by rewrite Ht, !size1_map_length, Hd.
  - by rewrite !size1_map_length, Hd.
  - rewrite (src_len_rect n) by done. unfold size0.
    by rewrite <- (length_map length mb), Hd, length_map.
Qed.

Lemma encoder_decoder_bias_entry (padding_idx : Z) (src0 : list (list token))
    (n j b : nat) (row : list token) (t : token) :
  rect n src0 -> src0 !! j = Some row -> row !! b = Some t ->
  exists brow,
    encoder_decoder_bias_of padding_idx (transpose01 (select_word src0)) !! b
      = Some [brow] /\
    brow !! j = Some (if decide (word t = padding_idx) then neg_inf else 0%Z).
Proof.
  intros Hr Hj Hb.
  assert (Hn : length row = n).
  { pose proof Hr as Hr'. unfold rect in Hr'. rewrite Forall_lookup in Hr'.
    by eapply Hr'. }
  assert (Hbn : b < n) by (rewrite <- Hn; by eapply lookup_lt_Some).
  assert (Hne : src0 <> []) by (intros ->; done).
  pose proof (rect_select_word n src0 Hr) as Hrw.
  assert (Hs1 : size1 (select_word src0) = n).
  { apply size1_rect; [done|]. unfold select_word. by destruct src0. }
  unfold encoder_decoder_bias_of, unsqueeze1, eq_pad.
  rewrite !lookup_map, lookup_transpose01 by lia. simpl.
  eexists. split; [reflexivity|].
  rewrite !lookup_map, (lookup_column n) by done.
  unfold select_word. rewrite lookup_map, Hj. simpl. rewrite lookup_map, Hb.
  simpl. f_equal. unfold neg_inf. case_decide; lia.
Qed.

(** X4: The bias of the cross-attention of the decoder and the bias of the
    self-attention of the encoder hold, for batch entry [b], one row over
    the source positions: the large negative constant where the source
    token is the padding token of the embeddings, 0 elsewhere. *)
Theorem source_padding_bias_entry (dec : TransformerDecoder R)
    (enc : Encoder.TransformerEncoder R) (s : TransformerDecoderState R)
    (n j b : nat) (row : list token) (t : token) :
  rect n (src s) -> src s !! j = Some row -> row !! b = Some t ->
  (exists brow,
     cross_bias R dec s !! b = Some [brow] /\
     brow !! j = Some (if decide (word t = word_padding_idx R (embeddings R dec))
                       then neg_inf else 0%Z)) /\
  (exists brow,
     Encoder.encoder_bias R enc (transpose01 (select_word (src s))) !! b
       = Some [brow] /\
     brow !! j = Some (if decide (word t =
                                  word_padding_idx R (Encoder.embeddings R enc))
                       then neg_inf else 0%Z)).
Proof.
  intros Hr Hj Hb. split.
  - by apply (encoder_decoder_bias_entry _ (src s) n j b row t).
  - by apply (encoder_decoder_bias_entry _ (src s) n j b row t).
Qed.
End EncoderDecoder.

(** ** The loop over the layers *)

Section StackProperties.
Variable R : Type.
Variable fadd : R -> R -> R.



(** X7: The state a call of [forward] returns is a new object that keeps the
    source of the state it was given and caches one tensor of layer inputs
    per layer of the decoder, which has at least one layer. *)
Theorem forward_caches_one_input_per_layer (dec : TransformerDecoder R)
    (tgt : list (list token)) (mb : list (list (list R))) (state : nat)
    (h : gmap nat (pyobj R)) outputs state' attns h' :
  forward R fadd dec tgt mb state h = Ok (outputs, state', attns, h') ->
  h !! state' = None /\
  exists s s' saved,
    h !! state = Some (TDS s) /\ h' !! state' = Some (TDS s') /\
    src s' = src s /\ previous_layer_inputs s' = Some saved /\
    length saved = num_layers R dec /\ 0 < num_layers R dec.
Proof.
  intros Hf. apply forward_inv in Hf as (s & o & Hs & Hb & -> & -> & Hu).
  apply forward_body_inv in Hb
    as (tgt' & output & attn & saved & calls & Hc & Hrun & Hst & ->).
  simpl in Hu. apply update_state_inv in Hu as (s2 & Hs2 & -> & ->).
  rewrite Hs in Hs2. injection Hs2 as <-.
  split; [apply fresh_loc_not_in|].
  apply run_layers_saved in Hrun as [Hlen _]. simpl in Hlen.
  exists s, (mkState (src s) (Some tgt') (Some saved)), saved.
  split; [done|]. split; [apply lookup_insert_eq|]. simpl.
  split; [done|]. split; [done|]. unfold num_layers. split; [done|].
  rewrite <- Hlen. destruct saved; [done|]. simpl. lia.
Qed.

(** X6: A decoder without layers never returns from [forward], whatever
    [torch.stack] does on the empty list of saved inputs: no iteration of
    the loop binds [attn], so when the checks pass and [torch.stack]
    returns, line 251 raises [NameError] on [attn]. *)
Theorem forward_never_returns_without_layers (dec : TransformerDecoder R)
    (tgt : list (list token)) (mb : list (list (list R)))
    (s : TransformerDecoderState R)
    (stk : list (list (list (list R))) -> result (list (list (list (list R))))) :
  layer_stack R dec = [] ->
  forward_body R fadd dec tgt mb s
    = forward_body_with R fadd (stack R) dec tgt mb s /\
  is_ok (forward_body_with R fadd stk dec tgt mb s) = false /\
  (forall tgt' saved,
     forward_checks R tgt mb s = Ok tgt' -> stk [] = Ok saved ->
     forward_body_with R fadd stk dec tgt mb s = Raise (NameError "attn")) /\
  (forall state h, is_ok (forward R fadd dec tgt mb state h) = false).
Proof.
  intros Hl. split; [reflexivity|].
  assert (Hno : forall stk0 s0,
            is_ok (forward_body_with R fadd stk0 dec tgt mb s0) = false).
  { intros stk0 s0. unfold forward_body_with.
    destruct (forward_checks R tgt mb s0) as [tgt'|e]; simpl; [|done].
    rewrite Hl. simpl. by destruct (stk0 []). }
  split; [apply Hno|]. split.
  - intros tgt' saved Hc Hs. unfold forward_body_with. rewrite Hc. simpl.
    rewrite Hl. simpl. by rewrite Hs.
  - intros state h. unfold forward.
    destruct (h !! state) as [[s0|]|]; [|done..].
    change (forward_body R fadd dec tgt mb s0)
      with (forward_body_with R fadd (stack R) dec tgt mb s0).
    pose proof (Hno (stack R) s0) as H.
    by destruct (forward_body_with R fadd (stack R) dec tgt mb s0).
Qed.
End StackProperties.

(** ** Expanding the state to a beam *)

Lemma tile_tile {A} (k m : nat) (row : list A) :
  tile m (tile k row) = tile (k * m) row.
Proof.
  unfold tile. induction m as [|m IH]; simpl.
  - by rewrite Nat.mul_0_r.
  - rewrite IH. replace (k * S m) with (k + k * m) by lia.
    by rewrite replicate_add, concat_app.
Qed.

Lemma tile_1 {A} (row : list A) : tile 1 row = row.
Proof. unfold tile. simpl. apply app_nil_r. Qed.

Lemma repeat1_repeat1 {A} (k m : nat) (t : list (list A)) :
  repeat1 m (repeat1 k t) = repeat1 (k * m) t.
Proof.
  unfold repeat1. rewrite map_map. apply map_ext. intros row. apply tile_tile.
Qed.

Lemma repeat1_1 {A} (t : list (list A)) : repeat1 1 t = t.
Proof.
  unfold repeat1. rewrite <- (map_id t) at 2. apply map_ext. intros row.
  apply tile_1.
Qed.

Lemma rect_repeat1 {A} (n k : nat) (t : list (list A)) :
  rect n t -> rect (k * n) (repeat1 k t).
Proof.
  unfold rect, repeat1. rewrite Forall_map. intros Hr.
  eapply Forall_impl; [exact Hr|]. intros row Hrow. simpl.
  by rewrite length_tile, Hrow.
Qed.

Lemma size1_repeat1 {A} (k : nat) (t : list (list A)) :
  size1 (repeat1 k t) = k * size1 t.
Proof.
  destruct t as [|row t]; unfold size1; simpl; [lia|]. apply length_tile.
Qed.

Section BeamProperties.
Variable R : Type.
Variable fadd : R -> R -> R.
Implicit Types (h : gmap nat (pyobj R)) (s : TransformerDecoderState R).

(** X11: Expanding a state to a beam of [k] and then to a beam of [m] is
    expanding it to a beam of [k * m]. *)
Theorem repeat_beam_size_times_twice (self k m : nat) h h1 :
  repeat_beam_size_times self k h = Ok h1 ->
  repeat_beam_size_times self m h1 = repeat_beam_size_times self (k * m) h.
Proof.
  unfold repeat_beam_size_times.
  destruct (h !! self) as [[s|]|] eqn:Hs; [|done..].
  intros [= <-]. rewrite lookup_insert_eq. simpl.
  by rewrite insert_insert_eq, repeat1_repeat1.
Qed.

(** X12: Expanding a state to a beam of one changes nothing. *)
Theorem repeat_beam_size_times_one (self : nat) h s :
  h !! self = Some (TDS s) ->
  repeat_beam_size_times self 1 h = Ok h.
Proof.
  intros Hs. unfold repeat_beam_size_times. rewrite Hs, repeat1_1.
  f_equal. destruct s. simpl. by apply insert_id.
Qed.
(** X13: Once a state holds a previous input, expanding it to a beam of another
    size than one makes every later call of [forward] raise in its checks:
    the source is tiled, the previous input is not. *)
Theorem beam_repeat_after_step_raises (dec : TransformerDecoder R)
    (state k : nat) h h1 s (p : list (list token)) :
  h !! state = Some (TDS s) -> previous_input s = Some p ->
  size1 p = size1 (src s) -> 0 < size1 p -> k <> 1 ->
  repeat_beam_size_times state k h = Ok h1 ->
  forall (tgt : list (list token)) (mb : list (list (list R))),
    fails_fast R tgt mb (h1 !! state) = true /\
    exists e, forward R fadd dec tgt mb state h1 = Raise e.
Proof.
  intros Hs Hp Hsz Hpos Hk Hrep tgt mb.
  unfold repeat_beam_size_times in Hrep. rewrite Hs in Hrep.
  injection Hrep as <-. unfold forward, fails_fast.
  rewrite lookup_insert_eq. unfold forward_body.
  rewrite forward_checks_cases. simpl. rewrite Hp, size1_repeat1.
  case_decide as Hd; [|split; [done|by eexists]].
  destruct Hd as (Ht & Hm & _). unfold cat0.
  rewrite decide_False; [split; [done|by eexists]|].
  intros [Hc _]. rewrite Ht, Hm, <- Hsz in Hc.
  destruct k as [|[|k]]; [lia|done|nia].
Qed.

(** X14: On a state made by [init_decoder_state] and expanded to a beam of [k],
    the checks of [forward] pass exactly for the targets and memory banks
    of batch size [k] times the batch size of the source, with a memory
    bank as long as the source. *)
Theorem checks_after_beam_repeat (src0 : list (list token)) (n k : nat) h h2
    (tgt : list (list token)) (mb : list (list (list R))) :
  rect n src0 -> 0 < n -> 0 < k ->
  repeat_beam_size_times (init_decoder_state R src0 h).1 k
    (init_decoder_state R src0 h).2 = Ok h2 ->
  fails_fast R tgt mb (h2 !! (init_decoder_state R src0 h).1) = false <->
  size1 tgt = k * size1 src0 /\ size1 mb = k * size1 src0 /\
  size0 mb = size0 src0.
Proof.
  intros Hr Hn Hk. unfold init_decoder_state, repeat_beam_size_times. simpl.
  rewrite lookup_insert_eq. intros [= <-]. rewrite lookup_insert_eq.
  unfold fails_fast. rewrite forward_checks_cases. simpl.
  rewrite size1_repeat1.
  assert (Hlen : src_len_of (repeat1 k src0) = size0 src0).
  { rewrite (src_len_rect (k * n)); [|by apply rect_repeat1|nia].
    unfold size0, repeat1. apply length_map. }
  rewrite Hlen. case_decide as Hd; simpl.
  - split; [intros _|done]. destruct Hd as (? & ? & ?). split; [congruence|done].
  - split; [done|]. intros (? & ? & ?). exfalso. apply Hd.
    split; [congruence|done].
Qed.
End BeamProperties.

(** ** The cached layer inputs *)

Lemma map_length_zip_with_app {A} (a b : list (list A)) :
  map length (zip_with app a b) = zip_with Nat.add (map length a) (map length b).
Proof.
  revert b. induction a as [|ra a IH]; intros [|rb b]; simpl; try done.
  by rewrite IH, length_app.
Qed.

Lemma zip_with_add_replicate (l : list nat) (m : nat) :
  zip_with Nat.add l (replicate (length l) m) = map (fun a => a + m) l.
Proof. induction l as [|a l IH]; simpl; [done|]. by rewrite IH. Qed.

Section CacheProperties.
Variable R : Type.
Variable fadd : R -> R -> R.

Lemma DecoderLayer_run_cache_dims (l : DecoderLayer R) x enc sb eb prev
    ans attn al calls :
  keeps_dims R (ma_l1_prenorm R l) ->
  DecoderLayer_run R fadd l x enc sb eb prev = Ok (ans, attn, al, calls) ->
  match prev with
  | None => map length al = map length x
  | Some p =>
      length p = length x /\
      map length al = zip_with Nat.add (map length p) (map length x)
  end.
Proof.
  intros K Hrun. apply DecoderLayer_run_calls in Hrun as (b1 & Hsa & _ & _).
  unfold self_attention_inputs in Hsa. destruct prev as [p|].
  - unfold cat1 in Hsa. case_decide as Hd; [|done]. simpl in Hsa.
    injection Hsa as <- _. destruct Hd as [H0 _]. unfold size0 in H0.
    rewrite map_length_zip_with_app, K. split; [|done].
    by rewrite H0, <- (length_map length (ma_l1_prenorm R l x)), K, length_map.
  - injection Hsa as <- _. apply K.
Qed.

(** X10: With a previous input, [DecoderLayer.forward] returns as [all_inputs],
    for each batch entry, as many positions as the previous input and the
    current input hold together; without one, as many as the current input;
    the transformed result has the shape of the input. *)
Theorem decoder_layer_cache_shape (l : DecoderLayer R)
    (x enc : list (list (list R))) (sb eb : list (list (list Z)))
    (prev : option (list (list (list R)))) ans attn all_inputs :
  layer_keeps_dims R l ->
  DecoderLayer_forward R fadd l x enc sb eb prev = Ok (ans, attn, all_inputs) ->
  map length ans = map length x /\
  map length all_inputs =
    match prev with
    | None => map length x
    | Some p => zip_with Nat.add (map length p) (map length x)
    end.
Proof.
  intros Kl. unfold DecoderLayer_forward.
  destruct (DecoderLayer_run R fadd l x enc sb eb prev)
    as [[[[ans0 attn0] al0] cs]|] eqn:Hrun; simpl; [|done].
  intros [= <- <- <-]. split.
  - by eapply DecoderLayer_run_dims.
  - apply DecoderLayer_run_cache_dims in Hrun; [|apply Kl].
    destruct prev as [p|]; [by destruct Hrun|done].
Qed.
Lemma decoder_input_dims (dec : TransformerDecoder R) (tgt : list (list token))
    (s : TransformerDecoderState R) (n : nat) :
  emb_keeps_dims R (embeddings R dec) -> rect n tgt -> tgt <> [] ->
  map length (decoder_input R dec (default [] (previous_input s) ++ tgt) s)
    = replicate n (size0 tgt).
Proof.
  intros He Hr Hne. unfold decoder_input.
  set (emb := match previous_input s with
              | Some p => drop (size0 p) _
              | None => _
              end).
  assert (Hemb : map length emb = map length tgt).
  { unfold emb. destruct (previous_input s) as [p|]; simpl.
    - unfold size0. rewrite map_drop, He, map_app.
      rewrite <- (length_map length p). apply drop_app_length.
    - apply He. }
  clearbody emb.
  assert (Hre : rect n emb) by (by eapply rect_map_length).
  assert (Hne' : emb <> []) by (destruct emb, tgt; done).
  rewrite (map_length_transpose01_rect n) by done. unfold size0.
  by rewrite <- (length_map length emb), Hemb, length_map.
Qed.

Lemma run_layers_caches (s : TransformerDecoderState R)
    (mb : list (list (list R))) db eb ls i out a saved calls
    out' a' saved' calls' (L : list nat) :
  Forall (layer_keeps_dims R) ls -> map length out = L -> length saved = i ->
  (forall j c', saved !! j = Some c' ->
     match previous_input s with
     | None => map length c' = L
     | Some _ => exists cs c,
         previous_layer_inputs s = Some cs /\ cs !! j = Some c /\
         length c = length L /\
         map length c' = zip_with Nat.add (map length c) L
     end) ->
  run_layers R fadd s mb db eb ls i (out, a, saved, calls)
    = Ok (out', a', saved', calls') ->
  forall j c', saved' !! j = Some c' ->
    match previous_input s with
    | None => map length c' = L
    | Some _ => exists cs c,
        previous_layer_inputs s = Some cs /\ cs !! j = Some c /\
        length c = length L /\
        map length c' = zip_with Nat.add (map length c) L
    end.
Proof.
  intros Hk. revert i out a saved calls.
  induction Hk as [|l ls Hl Hk IH]; intros i out a saved calls Ho Hi Hs; simpl.
  - by intros [= <- <- <- <-].
  - destruct (prev_layer_input_of R s i) as [prev|] eqn:Hp; simpl; [|done].
    destruct (DecoderLayer_run R fadd l out mb db eb prev)
      as [[[[ans attn] al] cs]|] eqn:Hrun; simpl; [|done].
    apply IH.
    + rewrite <- Ho. by eapply DecoderLayer_run_dims.
    + rewrite length_app. simpl. lia.
    + intros j c' Hj. apply lookup_app_Some in Hj as [Hj|[Hge Hj]].
      { by apply Hs. }
      rewrite Hi in Hge, Hj.
      destruct (j - i) as [|d] eqn:Hd; simpl in Hj; [|done].
      injection Hj as <-. assert (j = i) as -> by lia.
      apply DecoderLayer_run_cache_dims in Hrun; [|apply Hl].
      unfold prev_layer_input_of in Hp.
      destruct (previous_input s) as [p|].
      * destruct (previous_layer_inputs s) as [cached|]; [|done].
        destruct (cached !! i) as [t|] eqn:Ht; [|done]. injection Hp as <-.
        destruct Hrun as [Hlen Hal]. exists cached, t.
        split; [done|]. split; [done|]. rewrite <- Ho, length_map.
        split; [done|]. by rewrite Hal.
      * injection Hp as <-. by rewrite Hrun.
Qed.

(** X8: Every cache of the state a call of [forward] returns holds, for each
    batch entry, the positions of the cache of the state it was given
    followed by one position per new target token; on a fresh state it
    holds one position per target token. *)
Theorem forward_caches_grow (dec : TransformerDecoder R)
    (tgt : list (list token)) (mb : list (list (list R))) (state : nat)
    (h : gmap nat (pyobj R)) (s : TransformerDecoderState R) (n : nat)
    outputs state' attns h' :
  decoder_keeps_dims R dec -> rect n tgt -> tgt <> [] ->
  h !! state = Some (TDS s) ->
  forward R fadd dec tgt mb state h = Ok (outputs, state', attns, h') ->
  exists s' saved,
    h' !! state' = Some (TDS s') /\
    previous_layer_inputs s' = Some saved /\
    forall j c', saved !! j = Some c' ->
      match previous_input s with
      | None => map length c' = replicate n (size0 tgt)
      | Some _ => exists cs c,
          previous_layer_inputs s = Some cs /\ cs !! j = Some c /\
          map length c' = map (fun m => m + size0 tgt) (map length c)
      end.
Proof.
  intros [Ke Kl Kn] Hr Hne Hs Hf.
  apply forward_inv in Hf as (s1 & o & Hs1 & Hb & -> & -> & Hu).
  rewrite Hs in Hs1. injection Hs1 as <-.
  apply forward_body_inv in Hb
    as (tgt' & output & attn & saved & calls & Hc & Hrun & Hst & ->).
  apply forward_checks_history in Hc as ->. simpl in Hu.
  apply update_state_inv in Hu as (s2 & Hs2 & -> & ->).
  eexists _, saved. split; [apply lookup_insert_eq|]. split; [done|].
  intros j c' Hj.
  assert (Hcache := fun H0 =>
    run_layers_caches s _ _ _ _ 0 _ _ [] _ _ _ _ _ (replicate n (size0 tgt)) Kl
      (decoder_input_dims dec tgt s n Ke Hr Hne) eq_refl H0 Hrun j c' Hj).
  specialize (Hcache ltac:(intros ? ? H0; by rewrite lookup_nil in H0)).
  destruct (previous_input s) as [p|]; [|done].
  destruct Hcache as (cs & c & Hcs & Hc & Hlen & Hmap).
  exists cs, c. split; [done|]. split; [done|].
  rewrite length_replicate in Hlen.
  by rewrite Hmap, <- Hlen, <- (length_map length c), zip_with_add_replicate.
Qed.
End CacheProperties.

(** ** Names the constructors of the encoder load *)

Section EncoderNameProperties.
Import Names.

Ltac run_encoder_loads H :=
  repeat (cbn [exec exec_stmt eval rbind call super_init self_attr multihead
               layer_norm_call dropout_call];
          match goal with
          | |- context [load ?l ?x] =>
              let r := eval vm_compute in (load l x) in
              change (load l x) with r
          | |- _ => rewrite H
          end).

(** X15: Every name the constructors of [EncoderLayer] and [TransformerEncoder]
    load is a parameter, a global of the module or a builtin: when the
    calls into the imported modules return, both constructors return, for
    every number of layers. *)
Theorem encoder_constructors_return (extern : expr -> result unit) (n : nat) :
  (forall e, extern e = Ok tt) ->
  forallb (bound EncoderLayer_params) (names_of_body EncoderLayer_init) = true /\
  forallb (bound TransformerEncoder_params)
    (names_of_body TransformerEncoder_init) = true /\
  new_EncoderLayer extern = Ok tt /\
  new_TransformerEncoder extern n = Ok tt.
Proof.
  intros H.
  assert (Hl : new_EncoderLayer extern = Ok tt).
  { unfold new_EncoderLayer, EncoderLayer_init, EncoderLayer_params.
    run_encoder_loads H. reflexivity. }
  split; [vm_compute; reflexivity|]. split; [vm_compute; reflexivity|].
  split; [exact Hl|].
  unfold new_TransformerEncoder, TransformerEncoder_init,
    TransformerEncoder_params.
  rewrite Hl. destruct n; run_encoder_loads H; reflexivity.
Qed.

Lemma encoder_constructors_return_witness :
  new_EncoderLayer (fun _ => Ok tt) = Ok tt /\
  new_TransformerEncoder (fun _ => Ok tt) 6 = Ok tt.
Proof.
  destruct (encoder_constructors_return (fun _ => Ok tt) 6 (fun _ => eq_refl))
    as (_ & _ & H1 & H2).
  split; [exact H1|exact H2].
Defined.
End EncoderNameProperties.

(** ** A fresh state: the checks are the only way to raise *)

Lemma shape3_shape_of {R} (a b : list (list (list R))) :
  shape_of R a = shape_of R b -> shape3 R a = shape3 R b.
Proof.
  unfold shape_of, shape3, size0, size1, size2. intros H.
  destruct a as [|ra a], b as [|rb b]; simpl in *; try done.
  injection H as Hr Ht. f_equal; [f_equal|].
  - apply (f_equal length) in Ht. rewrite !length_map in Ht. lia.
  - apply (f_equal length) in Hr. by rewrite !length_map in Hr.
  - destruct ra, rb; simpl in *; try done. by injection Hr.
Qed.

Section FreshState.
Variable R : Type.
Variable fadd : R -> R -> R.

Lemma shape_of_tadd (a b : list (list (list R))) :
  shape_of R a = shape_of R b -> shape_of R (tadd R fadd a b) = shape_of R a.
Proof.
  unfold shape_of, tadd, zip3. revert b.
  induction a as [|ra a IH]; intros [|rb b] H; simpl in *; try done.
  injection H as Hr Ht. rewrite (IH b Ht). f_equal.
  by apply map_length_zip_with2.
Qed.

Lemma DecoderLayer_run_fresh (l : DecoderLayer R) x enc sb eb :
  layer_keeps_shape R l ->
  exists ans attn calls,
    DecoderLayer_run R fadd l x enc sb eb None
      = Ok (ans, attn, ma_l1_prenorm R l x, calls) /\
    shape_of R ans = shape_of R x.
Proof.
  intros [K1 K2 K3 K4 K5 K6 K7 K8 K9]. unfold DecoderLayer_run. simpl.
  set (x1 := tadd R fadd _ x).
  assert (H1 : shape_of R x1 = shape_of R x).
  { unfold x1. rewrite shape_of_tadd; rewrite K7, K1, K4; done. }
  destruct (ma_l2 R l (ma_l2_prenorm R l x1) (Some enc) (num_heads R l) (Some eb))
    as [y attn0] eqn:Hm.
  eexists _, _, _. split; [reflexivity|].
  assert (Hy : shape_of R y = shape_of R x1).
  { pose proof (K2 (ma_l2_prenorm R l x1) (Some enc) (num_heads R l) (Some eb)) as H.
    rewrite Hm in H. simpl in H. by rewrite H, K5. }
  set (x2 := tadd R fadd (ma_l2_postdropout R l y) x1).
  assert (H2 : shape_of R x2 = shape_of R x1).
  { unfold x2. rewrite shape_of_tadd; rewrite K8; done. }
  rewrite shape_of_tadd; rewrite K9, K3, K6; congruence.
Qed.

Lemma run_layers_fresh (s : TransformerDecoderState R)
    (mb : list (list (list R))) db eb ls i out a saved calls :
  previous_input s = None -> Forall (layer_keeps_shape R) ls ->
  Forall (fun c => shape_of R c = shape_of R out) saved ->
  exists out' a' saved' calls',
    run_layers R fadd s mb db eb ls i (out, a, saved, calls)
      = Ok (out', a', saved', calls') /\
    Forall (fun c => shape_of R c = shape_of R out) saved' /\
    length saved' = length saved + length ls /\
    (ls <> [] -> is_Some a').
Proof.
  intros Hp Hk. revert i out a saved calls.
  induction Hk as [|l ls Hl Hk IH]; intros i out a saved calls Hs; simpl.
  - eexists _, _, _, _. split; [reflexivity|]. split; [done|].
    split; [lia|done].
  - unfold prev_layer_input_of. rewrite Hp. simpl.
    destruct (DecoderLayer_run_fresh l out mb db eb Hl)
      as (ans & attn & cs & -> & Hans). simpl.
    destruct (IH (S i) ans (Some attn) (saved ++ [ma_l1_prenorm R l out])
                (calls ++ cs)) as (out' & a' & saved' & calls' & Hrun & Hall & Hlen & Ha).
    + rewrite Hans. apply Forall_app. split; [done|].
      constructor; [|constructor]. apply Hl.
    + exists out', a', saved', calls'. split; [done|].
      rewrite Hans in Hall. split; [done|].
      rewrite length_app in Hlen. simpl in Hlen. split; [lia|].
      intros _. destruct ls as [|l' ls'].
      * simpl in Hrun. injection Hrun as _ <- _ _. done.
      * by apply Ha.
Qed.

Lemma stack_same_shape (ts : list (list (list (list R))))
    (x : list (list (list R))) :
  ts <> [] -> Forall (fun c => shape_of R c = shape_of R x) ts ->
  stack R ts = Ok ts.
Proof.
  intros Hne Hall. destruct ts as [|t rest]; [done|]. unfold stack.
  apply Forall_cons in Hall as [Ht Hrest].
  assert (forallb (fun u => bool_decide (shape3 R u = shape3 R t)) rest = true)
    as ->; [|done].
  apply forallb_forall. intros u Hu%list_elem_of_In.
  apply bool_decide_eq_true_2, shape3_shape_of.
  rewrite Forall_forall in Hrest. by rewrite (Hrest u Hu), Ht.
Qed.

(** X5: On a state that holds no previous input, a decoder with at least one
    layer returns from [forward] exactly when the checks pass: neither the
    layers nor [torch.stack] nor [update_state] raise. *)
Theorem forward_returns_iff_checks (dec : TransformerDecoder R)
    (tgt : list (list token)) (mb : list (list (list R))) (state : nat)
    (h : gmap nat (pyobj R)) (s : TransformerDecoderState R) :
  Forall (layer_keeps_shape R) (layer_stack R dec) -> layer_stack R dec <> [] ->
  h !! state = Some (TDS s) -> previous_input s = None ->
  is_ok (forward R fadd dec tgt mb state h)
    = negb (fails_fast R tgt mb (h !! state)).
Proof.
  intros Hk Hne Hs Hp. unfold forward, fails_fast. rewrite Hs.
  rewrite negb_involutive. unfold forward_body.
  destruct (forward_checks R tgt mb s) as [tgt'|e]; simpl; [|done].
  rewrite Hp.
  match goal with
  | |- context [run_layers R fadd s ?m ?db ?eb ?ls 0 (?out, None, [], [])] =>
      destruct (run_layers_fresh s m db eb ls 0 out None [] [] Hp Hk
                  ltac:(constructor))
        as (out' & a' & saved' & calls' & -> & Hall & Hlen & Ha)
  end.
  simpl. destruct (Ha Hne) as [attn ->].
  assert (Hsaved : saved' <> []).
  { intros ->. simpl in Hlen. destruct (layer_stack R dec); [done|].
    simpl in Hlen. lia. }
  rewrite (stack_same_shape saved' _ Hsaved Hall).
  simpl. rewrite (update_state_ok R h state s) by done. done.
Qed.
End FreshState.

(** ** The further theorems at concrete inputs *)

Lemma small_encoder_layer_dims : Encoder.layer_keeps_dims Z Small.encoder_layer.
Proof.
  split; try (intros x; reflexivity); apply small_attention_dims.
Qed.

Lemma small_encoder_dims (n : nat) :
  Encoder.encoder_keeps_dims Z (Small.encoder n).
Proof.
  split; simpl.
  - apply small_embed_dims.
  - apply Forall_forall. intros l Hl%elem_of_replicate_inv. subst.
    apply small_encoder_layer_dims.
  - intros x. reflexivity.
Qed.

Lemma small_plain_layer_shape : layer_keeps_shape Z Small.plain_layer.
Proof. split; intros x; reflexivity. Qed.

Lemma encoder_forward_raises_iff_witness :
  Encoder.forward Z Z.add (Small.encoder 2) Small.src0 None None
    <> Raise AssertionError.
Proof.
  intros H.
  apply (encoder_forward_raises_iff Z Z.add (Small.encoder 2) Small.src0 None
           None AssertionError small_embed_dims) in H.
  discriminate H.
Defined.

Lemma encoder_forward_shape_witness :
  exists mb,
    Encoder.forward Z Z.add (Small.encoder 2) Small.src0 None None
      = Ok (Small.embed Small.src0, mb) /\
    size0 mb = 2 /\ rect 2 mb.
Proof.
  exact (encoder_forward_shape Z Z.add (Small.encoder 2) Small.src0 None None 2
           (small_encoder_dims 2) ltac:(repeat constructor) ltac:(lia) eq_refl).
Defined.

Lemma encoder_output_passes_decoder_checks_witness :
  exists emb mb,
    Encoder.forward Z Z.add (Small.encoder 2) Small.src0 None None
      = Ok (emb, mb) /\
    forward_checks Z Small.tgt0 mb (init_state Small.src0) = Ok Small.tgt0.
Proof.
  destruct (Encoder.forward Z Z.add (Small.encoder 2) Small.src0 None None)
    as [[emb mb]|e] eqn:E; [|vm_compute in E; discriminate E].
  exists emb, mb. split; [reflexivity|].
  exact (encoder_output_passes_decoder_checks Z Z.add (Small.encoder 2)
           Small.src0 None None 2 emb mb Small.tgt0 (small_encoder_dims 2)
           ltac:(repeat constructor) ltac:(lia) E eq_refl).
Defined.

Lemma source_padding_bias_entry_witness :
  exists brow,
    cross_bias Z (Small.decoder 2 true) (init_state Small.src0) !! 1
      = Some [brow] /\
    brow !! 1 = Some neg_inf.
Proof.
  exact (proj1 (source_padding_bias_entry Z (Small.decoder 2 true)
                  (Small.encoder 2) (init_state Small.src0) 2 1 1
                  [Small.tok 7; Small.tok 1] (Small.tok 1)
                  ltac:(repeat constructor) eq_refl eq_refl)).
Defined.


Lemma forward_caches_one_input_per_layer_witness :
  exists outputs state' attns h',
    forward Z Z.add (Small.decoder 2 true) Small.tgt_next Small.memory_bank0
      Small.state1 Small.heap1 = Ok (outputs, state', attns, h') /\
    Small.heap1 !! state' = None.
Proof.
  destruct (forward Z Z.add (Small.decoder 2 true) Small.tgt_next
              Small.memory_bank0 Small.state1 Small.heap1)
    as [[[[outputs state'] attns] h']|e] eqn:E;
    [|vm_compute in E; discriminate E].
  exists outputs, state', attns, h'. split; [reflexivity|].
  exact (proj1 (forward_caches_one_input_per_layer Z Z.add
                  (Small.decoder 2 true) Small.tgt_next Small.memory_bank0
                  Small.state1 Small.heap1 outputs state' attns h' E)).
Defined.

Lemma forward_never_returns_without_layers_witness :
  forward_body_with Z Z.add (fun saved => Ok saved) (Small.decoder 0 false)
    Small.tgt0 Small.memory_bank0 (init_state Small.src0)
    = Raise (NameError "attn").
Proof.
  exact (proj1 (proj2 (proj2
           (forward_never_returns_without_layers Z Z.add (Small.decoder 0 false)
              Small.tgt0 Small.memory_bank0 (init_state Small.src0)
              (fun saved => Ok saved) eq_refl)))
           Small.tgt0 [] eq_refl eq_refl).
Defined.

Lemma repeat_beam_size_times_twice_witness :
  exists h1,
    repeat_beam_size_times 0 2 Small.heap0 = Ok h1 /\
    repeat_beam_size_times 0 3 h1 = repeat_beam_size_times 0 6 Small.heap0.
Proof.
  destruct (repeat_beam_size_times 0 2 Small.heap0) as [h1|e] eqn:E;
    [|vm_compute in E; discriminate E].
  exists h1. split; [reflexivity|].
  exact (repeat_beam_size_times_twice Z 0 2 3 Small.heap0 h1 E).
Defined.

Lemma repeat_beam_size_times_one_witness :
  repeat_beam_size_times 0 1 Small.heap0 = Ok Small.heap0.
Proof.
  exact (repeat_beam_size_times_one Z 0 Small.heap0 (init_state Small.src0)
           eq_refl).
Defined.

Lemma beam_repeat_after_step_raises_witness :
  exists h1,
    repeat_beam_size_times Small.state1 2 Small.heap1 = Ok h1 /\
    exists e,
      forward Z Z.add (Small.decoder 2 true) Small.tgt_next Small.memory_bank0
        Small.state1 h1 = Raise e.
Proof.
  destruct (Small.heap1 !! Small.state1) as [[s|]|] eqn:Hs;
    [|vm_compute in Hs; discriminate Hs..].
  assert (Hp : previous_input s = Some Small.tgt_first).
  { vm_compute in Hs. injection Hs as <-. reflexivity. }
  assert (Hsrc : size1 Small.tgt_first = size1 (src s)).
  { vm_compute in Hs. injection Hs as <-. reflexivity. }
  destruct (repeat_beam_size_times Small.state1 2 Small.heap1) as [h1|e] eqn:E;
    [|vm_compute in E; discriminate E].
  exists h1. split; [reflexivity|].
  exact (proj2 (beam_repeat_after_step_raises Z Z.add (Small.decoder 2 true)
                  Small.state1 2 Small.heap1 h1 s Small.tgt_first Hs Hp Hsrc
                  ltac:(vm_compute; lia) ltac:(lia) E Small.tgt_next
                  Small.memory_bank0)).
Defined.

Lemma checks_after_beam_repeat_witness :
  exists h2,
    repeat_beam_size_times (init_decoder_state Z Small.srcA ∅).1 2
      (init_decoder_state Z Small.srcA ∅).2 = Ok h2 /\
    fails_fast Z Small.tgtB Small.mbB
      (h2 !! (init_decoder_state Z Small.srcA ∅).1) = false.
Proof.
  destruct (repeat_beam_size_times (init_decoder_state Z Small.srcA ∅).1 2
              (init_decoder_state Z Small.srcA ∅).2) as [h2|e] eqn:E;
    [|vm_compute in E; discriminate E].
  exists h2. split; [reflexivity|].
  apply (checks_after_beam_repeat Z Small.srcA 1 2 ∅ h2 Small.tgtB Small.mbB
           ltac:(repeat constructor) ltac:(lia) ltac:(lia) E).
  repeat split; reflexivity.
Defined.

Lemma decoder_layer_cache_shape_witness :
  exists ans attn all_inputs,
    DecoderLayer_forward Z Z.add Small.layer Small.x1 Small.enc1 Small.sb1
      Small.eb1 (Some Small.p1) = Ok (ans, attn, all_inputs) /\
    map length all_inputs = [2].
Proof.
  destruct (DecoderLayer_forward Z Z.add Small.layer Small.x1 Small.enc1
              Small.sb1 Small.eb1 (Some Small.p1))
    as [[[ans attn] all_inputs]|e] eqn:E; [|vm_compute in E; discriminate E].
  exists ans, attn, all_inputs. split; [reflexivity|].
  exact (proj2 (decoder_layer_cache_shape Z Z.add Small.layer Small.x1
                  Small.enc1 Small.sb1 Small.eb1 (Some Small.p1) ans attn
                  all_inputs small_layer_dims E)).
Defined.

Lemma forward_caches_grow_witness :
  exists outputs state' attns h' s' saved,
    forward Z Z.add (Small.decoder 2 true) Small.tgt_next Small.memory_bank0
      Small.state1 Small.heap1 = Ok (outputs, state', attns, h') /\
    h' !! state' = Some (TDS s') /\
    previous_layer_inputs s' = Some saved.
Proof.
  destruct (forward Z Z.add (Small.decoder 2 true) Small.tgt_next
              Small.memory_bank0 Small.state1 Small.heap1)
    as [[[[outputs state'] attns] h']|e] eqn:E;
    [|vm_compute in E; discriminate E].
  destruct (Small.heap1 !! Small.state1) as [[s|]|] eqn:Hs;
    [|vm_compute in Hs; discriminate Hs..].
  destruct (forward_caches_grow Z Z.add (Small.decoder 2 true) Small.tgt_next
              Small.memory_bank0 Small.state1 Small.heap1 s 2
              outputs state' attns h' (small_decoder_dims 2 true)
              ltac:(repeat constructor) ltac:(discriminate) Hs E)
    as (s' & saved & H1 & H2 & _).
  exists outputs, state', attns, h', s', saved.
  split; [reflexivity|]. split; [exact H1|exact H2].
Defined.

Lemma forward_returns_iff_checks_witness :
  is_ok (forward Z Z.add (Small.plain_decoder 2) Small.tgt0 Small.memory_bank0
           0 Small.heap0) = true.
Proof.
  eapply eq_trans.
  - apply (forward_returns_iff_checks Z Z.add (Small.plain_decoder 2)
             Small.tgt0 Small.memory_bank0 0 Small.heap0
             (init_state Small.src0)).
    + apply Forall_forall. intros l Hl%elem_of_replicate_inv. subst.
      apply small_plain_layer_shape.
    + discriminate.
    + reflexivity.
    + reflexivity.
  - vm_compute. reflexivity.
Defined.

(** ** The layout of the attention maps *)

Section AttnLayout.
Variable R : Type.
Variable fadd : R -> R -> R.

Lemma cross_query_dims (l : DecoderLayer R) (x al : list (list (list R)))
    (b1 : option (list (list (list Z)))) :
  layer_keeps_dims R l ->
  map length (cross_query R fadd l x al b1) = map length x.
Proof.
  intros [K1 K2 K3 K4 K5 K6 K7 K8 K9]. unfold cross_query.
  rewrite K5, map_length_tadd; rewrite K7, K1, K4; done.
Qed.

(** C8: in the attention maps [forward] returns, ["std"] is the transpose
    of the cross-attention weights the [ma_l2] of the last layer returns
    for the query that layer computes from the result of the layers before
    it.  The layer returns them batch first; [forward] transposes them, so
    that ["std"] is length first: entry [i] of ["std"] holds, for each batch
    entry [b], the weights of target position [i].  With copy attention
    enabled ["copy"] is that same tensor, and it is absent otherwise; the
    [copy_attn] module plays no part in the result. *)
Theorem attns_from_final_layer_length_first (dec : TransformerDecoder R)
    (tgt : list (list token)) (mb : list (list (list R)))
    (s : TransformerDecoderState R) (o : forward_out R) (B : nat) :
  decoder_keeps_dims R dec ->
  Forall (fun l => attn_weights_dims R (ma_l2 R l)) (layer_stack R dec) ->
  rect B tgt -> 0 < B -> tgt <> [] ->
  forward_body R fadd dec tgt mb s = Ok o ->
  (exists layers last tgt' x a0 saved0 calls0 prev ans attn all_inputs b1 calls,
     layer_stack R dec = layers ++ [last] /\
     forward_checks R tgt mb s = Ok tgt' /\
     run_layers R fadd s (transpose01 mb) (self_bias R dec tgt)
       (cross_bias R dec s) layers 0 (decoder_input R dec tgt' s, None, [], [])
       = Ok (x, a0, saved0, calls0) /\
     prev_layer_input_of R s (length layers) = Ok prev /\
     self_attention_inputs R (ma_l1_prenorm R last x) (self_bias R dec tgt) prev
       = Ok (all_inputs, b1) /\
     DecoderLayer_run R fadd last x (transpose01 mb) (self_bias R dec tgt)
       (cross_bias R dec s) prev = Ok (ans, attn, all_inputs, calls) /\
     attn = snd (ma_l2 R last (cross_query R fadd last x all_inputs b1)
                   (Some (transpose01 mb)) (num_heads R last)
                   (Some (cross_bias R dec s))) /\
     size0 attn = B /\ rect (size0 tgt) attn /\
     out_attns R o !! "std" = Some (transpose01 attn) /\
     size0 (transpose01 attn) = size0 tgt /\ rect B (transpose01 attn) /\
     (forall i b, i < size0 tgt ->
        transpose01 attn !! i ≫= (.!! b) = attn !! b ≫= (.!! i)) /\
     out_attns R o !! "copy" =
       (if _copy R dec then Some (transpose01 attn) else None)) /\
  (forall ca,
     forward_body R fadd (with_copy_attn R dec ca) tgt mb s = Ok o).
Proof.
  intros [Ke Kl Kn] Kw Hr HB Hne Hf. split; [|intros ca; exact Hf].
  apply forward_body_inv in Hf
    as (tgt' & output & attn & saved & calls & Hc & Hrun & Hst & ->).
  destruct (decide (layer_stack R dec = [])) as [Hnil|Hls].
  { rewrite Hnil in Hrun. simpl in Hrun. done. }
  destruct (exists_last Hls) as (layers & last & Hl).
  rewrite Hl in Kl, Kw. apply Forall_app in Kl as [Kl1 Kl2].
  apply Forall_app in Kw as [_ Kw2].
  apply Forall_cons in Kl2 as [Klast _]. apply Forall_cons in Kw2 as [Kwlast _].
  rewrite Hl, run_layers_app in Hrun. simpl in Hrun.
  destruct (run_layers R fadd s _ _ _ layers 0 _)
    as [[[[out0 a0] saved0] calls0]|] eqn:Hpre; simpl in Hrun; [|done].
  destruct (prev_layer_input_of R s (length layers)) as [prev|] eqn:Hprev;
    simpl in Hrun; [|done].
  destruct (DecoderLayer_run R fadd last out0 _ _ _ prev)
    as [[[[ans attn1] al] cs]|] eqn:Hlast; simpl in Hrun; [|done].
  injection Hrun as <- <- <- <-.
  destruct (DecoderLayer_run_calls R fadd _ _ _ _ _ _ _ _ _ _ Hlast)
    as (b1 & Hsa & _ & Hattn).
  assert (Hdims : map length attn1 = replicate B (size0 tgt)).
  { rewrite Hattn, Kwlast, cross_query_dims by done.
    rewrite (run_layers_dims R fadd _ _ _ _ _ _ _ _ _ _ _ _ _ _ Kl1 Hpre).
    pose proof (forward_checks_history R _ _ _ _ Hc) as ->.
    by apply decoder_input_dims. }
  assert (Hlen : length attn1 = B).
  { by rewrite <- (length_map length attn1), Hdims, length_replicate. }
  assert (Hrect : rect (size0 tgt) attn1).
  { unfold rect. apply Forall_forall. intros row Hrow.
    assert (Hin : length row ∈ map length attn1).
    { apply list_elem_of_fmap. by exists row. }
    rewrite Hdims in Hin. by apply elem_of_replicate in Hin as [-> _]. }
  assert (Hne1 : attn1 <> []) by (intros ->; simpl in Hlen; lia).
  assert (Hs1 : size1 attn1 = size0 tgt) by (by apply size1_rect).
  exists layers, last, tgt', out0, a0, saved0, calls0, prev, ans, attn1, al, b1, cs.
  simpl. destruct (lookup_attns_of R (_copy R dec) (transpose01 attn1)) as [H1 H2].
  split; [done|]. split; [done|]. split; [done|]. split; [done|].
  split; [done|]. split; [done|]. split; [done|]. split; [done|].
  split; [done|]. split; [done|].
  split; [unfold size0 at 1; by rewrite length_transpose01|].
  split; [rewrite <- Hlen; by eapply rect_transpose01|].
  split; [|done].
  intros i b Hi. rewrite lookup_transpose01 by lia. simpl.
  by apply (lookup_column (size0 tgt)).
Qed.
End AttnLayout.

Lemma small_attention_weights_dims : attn_weights_dims Z Small.attention.
Proof.
  intros q m h b. unfold Small.attention. simpl.
  apply (map_length_imap2
           (fun b0 r (q0 : list Z) =>
              Small.weights_row (length (default [] (default q m !! b0)))
                (bias_row b b0 r (length (default [] (default q m !! b0)))))).
Qed.

Lemma attns_from_final_layer_length_first_witness :
  exists o std,
    forward_body Z Z.add (Small.decoder 2 true) Small.tgt0 Small.memory_bank0
      (init_state Small.src0) = Ok o /\
    out_attns Z o !! "std" = Some std /\
    size0 std = size0 Small.tgt0 /\
    out_attns Z o !! "copy" = Some std.
Proof.
  destruct (forward_body Z Z.add (Small.decoder 2 true) Small.tgt0
              Small.memory_bank0 (init_state Small.src0)) as [o|e] eqn:E;
    [|vm_compute in E; discriminate E].
  destruct (attns_from_final_layer_length_first Z Z.add (Small.decoder 2 true)
              Small.tgt0 Small.memory_bank0 (init_state Small.src0) o 2
              (small_decoder_dims 2 true)
              ltac:(repeat constructor; apply small_attention_weights_dims)
              ltac:(repeat constructor) ltac:(lia) ltac:(discriminate) E)
    as [(layers & last & tgt' & x & a0 & saved0 & calls0 & prev & ans & attn &
         al & b1 & calls & _ & _ & _ & _ & _ & _ & _ & _ & _ & Hstd & Hsz & _ &
         _ & Hcopy) _].
  exists o, (transpose01 attn). split; [reflexivity|].
  split; [exact Hstd|]. split; [exact Hsz|exact Hcopy].
Defined.

(** C8, counterexample: a target of three positions for a batch of two.
    The first axis of ["std"] has the size of the target length and its
    second axis the size of the batch: the tensor is length first, not
    batch first. *)
Lemma attns_std_not_batch_first :
  exists o std,
    forward_body Z Z.add (Small.decoder 2 true) Small.tgt0 Small.memory_bank0
      (init_state Small.src0) = Ok o /\
    out_attns Z o !! "std" = Some std /\
    size0 Small.tgt0 = 3 /\ size1 Small.tgt0 = 2 /\
    size0 std = 3 /\ size1 std = 2.
Proof.
  do 2 eexists. split; [vm_compute; reflexivity|].
  split; [vm_compute; reflexivity|]. repeat split.
Qed.

(** ** Causal masking with an additive bias *)

(** C9, counterexample: the first batch entry of the target starts with
    the padding word, so that every entry of the bias row of its first
    query is the large negative constant, and the attention, whose bias is
    additive, gives weight to every key of that row.  Two targets that
    differ at the second position only give different outputs at the
    first. *)
Lemma causal_masking_fails_on_padded_start :
  exists o o',
    forward_body Z Z.add (Small.soft_decoder 2) Small.tgt_pad
      Small.memory_bank0 (init_state Small.src0) = Ok o /\
    forward_body Z Z.add (Small.soft_decoder 2) Small.tgt_pad'
      Small.memory_bank0 (init_state Small.src0) = Ok o' /\
    take 1 Small.tgt_pad = take 1 Small.tgt_pad' /\
    out_outputs Z o !! 0 <> out_outputs Z o' !! 0.
Proof.
  do 2 eexists. split; [vm_compute; reflexivity|].
  split; [vm_compute; reflexivity|]. split; [reflexivity|].
  vm_compute. discriminate.
Qed.

Lemma causal_row_open (padding_idx : Z) (words : list Z) (r klen : nat) (w : Z) :
  words !! 0 = Some w -> w <> padding_idx -> 0 < klen ->
  open_row klen (causal_row padding_idx words r).
Proof.
  intros Hw Hne Hk. split.
  - exists 0. split; [done|]. destruct words as [|w0 words]; [done|].
    injection Hw as ->. unfold causal_row. simpl.
    rewrite (decide_False (P := w = padding_idx)) by done.
    done.
  - unfold causal_row. apply Forall_forall. intros v Hv.
    apply list_elem_of_fmap in Hv as (u & -> & _).
    case_decide; [right|left]; unfold neg_inf; lia.
Qed.

Section RowwiseProperties.
Variable R : Type.
Variable fadd : R -> R -> R.

(** Each position of the result of a layer is [row_pos] of that position,
    of the keys and of the bias rows of its two attentions. *)
Lemma DecoderLayer_run_rows (l : DecoderLayer R) (M : rowwise_model R)
    x enc sb eb prev ans attn al calls :
  layer_rowwise R l M ->
  DecoderLayer_run R fadd l x enc sb eb prev = Ok (ans, attn, al, calls) ->
  exists b1,
    self_attention_inputs R (map (map (rm_n1 R M)) x) sb prev = Ok (al, b1) /\
    ans = imap (fun b xs =>
            imap (fun r xr =>
              row_pos R fadd M (default [] (enc !! b))
                (bias_row (Some eb) b r (length (default [] (enc !! b))))
                xr (default [] (al !! b))
                (bias_row b1 b r (length (default [] (al !! b)))))
              xs) x.
Proof.
  intros [[A1 _] [A2 _] P1 P2 P3 P4 D1 D2 D3]. unfold DecoderLayer_run.
  cbv zeta.
  destruct (self_attention_inputs R _ sb prev) as [[ai b1]|] eqn:Hs;
    cbn [rbind]; [|done].
  rewrite !P2 in *. rewrite !A1, !D1.
  match goal with
  | |- context [ma_l2 R l ?q (Some enc) ?h (Some eb)] =>
      pose proof (A2 q enc h (Some eb)) as Hy;
      destruct (ma_l2 R l q (Some enc) h (Some eb)) as [y attn0]
  end.
  simpl in Hy. subst y.
  intros [= <- <- <- <-]. exists b1. split; [done|].
  rewrite !D2, !D3, !P1, !P3, !P4.
  unfold tadd, zip3, row_pos.
  apply list_eq. intros b.
  rewrite ?lookup_zip_with, ?lookup_map, ?list_lookup_imap, ?lookup_map.
  repeat (rewrite ?lookup_zip_with, ?lookup_map, ?list_lookup_imap).
  destruct (x !! b) as [xs|] eqn:Hb; simpl; [|done]. f_equal.
  apply list_eq. intros r.
  repeat (rewrite ?lookup_zip_with, ?lookup_map, ?list_lookup_imap).
  destruct (xs !! r) as [xr|] eqn:Hr; simpl; done.
Qed.

Lemma take_le_eq {A} (k n : nat) (l l' : list A) :
  n <= k -> take k l = take k l' -> take n l = take n l'.
Proof.
  intros Hn E. replace n with (min n k) by lia. by rewrite <- !take_take, E.
Qed.

Lemma lookup_map_take {A} (k b : nat) (t t' : list (list A)) (row row' : list A) :
  map (take k) t = map (take k) t' ->
  t !! b = Some row -> t' !! b = Some row' -> take k row = take k row'.
Proof.
  intros E Hb Hb'. apply (f_equal (fun l => l !! b)) in E.
  rewrite !lookup_map, Hb, Hb' in E. simpl in E. by injection E.
Qed.

(** A layer without cache keeps the first [k] positions of two inputs
    equal, when the words of the two targets agree there and no batch entry
    starts with the padding word. *)
Lemma layer_prefix (l : DecoderLayer R) (M : rowwise_model R) (pad : Z)
    (W W' : list (list Z)) (T k : nat) x x' enc eb
    ans attn al calls ans' attn' al' calls' :
  layer_rowwise R l M ->
  length x = length W -> length x' = length W' -> length W = length W' ->
  rect T x -> rect T x' -> rect T W -> rect T W' ->
  Forall (fun ws => exists w, ws !! 0 = Some w /\ w <> pad) W ->
  Forall (fun ws => exists w, ws !! 0 = Some w /\ w <> pad) W' ->
  map (take k) x = map (take k) x' -> map (take k) W = map (take k) W' ->
  DecoderLayer_run R fadd l x enc (decoder_bias_of pad W (length W) T) eb None
    = Ok (ans, attn, al, calls) ->
  DecoderLayer_run R fadd l x' enc (decoder_bias_of pad W' (length W') T) eb None
    = Ok (ans', attn', al', calls') ->
  map (take k) ans = map (take k) ans' /\
  map length ans = map length x /\ map length ans' = map length x'.
Proof.
  intros Hl Hlx Hlx' HlW Hx Hx' HW HW' Hf Hf' Hpx HpW Hrun Hrun'.
  destruct (DecoderLayer_run_rows l M _ _ _ _ _ _ _ _ _ Hl Hrun)
    as (b1 & Hs & ->).
  destruct (DecoderLayer_run_rows l M _ _ _ _ _ _ _ _ _ Hl Hrun')
    as (b1' & Hs' & ->).
  simpl in Hs, Hs'. injection Hs as <- <-. injection Hs' as <- <-.
  split; [|split; apply map_length_imap2].
  destruct Hl as [[_ Law] _ _ _ _ _ _ _ _].
  unfold rect in Hx, Hx', HW, HW'.
  rewrite Forall_lookup in Hx. rewrite Forall_lookup in Hx'.
  rewrite Forall_lookup in HW. rewrite Forall_lookup in HW'.
  rewrite Forall_lookup in Hf. rewrite Forall_lookup in Hf'.
  apply list_eq. intros b. rewrite !lookup_map, !list_lookup_imap.
  destruct (x !! b) as [xs|] eqn:Hb; simpl.
  2:{ apply lookup_ge_None in Hb.
      rewrite (lookup_ge_None_2 x' b); [done|]. lia. }
  destruct (lookup_lt_is_Some_2 x' b) as [xs' Hb'].
  { apply lookup_lt_Some in Hb. lia. }
  rewrite Hb'. simpl. f_equal.
  pose proof (lookup_map_take k b x x' xs xs' Hpx Hb Hb') as Hxs.
  destruct (lookup_lt_is_Some_2 W b) as [ws Hws].
  { apply lookup_lt_Some in Hb. lia. }
  destruct (lookup_lt_is_Some_2 W' b) as [ws' Hws'].
  { apply lookup_lt_Some in Hb. lia. }
  pose proof (lookup_map_take k b W W' ws ws' HpW Hws Hws') as Hwk.
  rewrite !take_imap, <- Hxs. apply imap_ext. intros r xr Hr. simpl.
  apply lookup_take_Some in Hr as [Hr Hrk].
  assert (HrT : r < T).
  { rewrite <- (Hx b xs Hb). by eapply lookup_lt_Some. }
  rewrite !lookup_map, Hb, Hb'. simpl. rewrite !length_map.
  rewrite (Hx b xs Hb), (Hx' b xs' Hb').
  rewrite (bias_row_causal pad W T b r T ws Hws (HW b ws Hws) HrT).
  rewrite (bias_row_causal pad W' T b r T ws' Hws' (HW' b ws' Hws') HrT).
  unfold row_pos.
  assert (Hatt :
    rm_att1 R M (rm_n1 R M xr) (map (rm_n1 R M) xs) (causal_row pad ws r) =
    rm_att1 R M (rm_n1 R M xr) (map (rm_n1 R M) xs') (causal_row pad ws' r)).
  { destruct (Hf b ws Hws) as (w & Hw0 & Hwne).
    destruct (Hf' b ws' Hws') as (w' & Hw0' & Hwne').
    apply Law.
    - rewrite length_map, (Hx b xs Hb). apply (causal_row_open pad ws r T w); [done|done|lia].
    - rewrite length_map, (Hx' b xs' Hb').
      apply (causal_row_open pad ws' r T w'); [done|done|lia].
    - rewrite !allowed_causal_row, <- !map_take.
      rewrite (take_le_eq k (S r) xs xs') by (done || lia).
      by rewrite (take_le_eq k (S r) ws ws') by (done || lia). }
  by rewrite Hatt.
Qed.

Lemma length_map_length {A B} (a : list (list A)) (b : list (list B)) :
  map length a = map length b -> length a = length b.
Proof.
  intros H. apply (f_equal length) in H. by rewrite !length_map in H.
Qed.

Lemma run_layers_prefix (s : TransformerDecoderState R)
    (ls : list (DecoderLayer R)) (Ms : list (rowwise_model R)) (pad : Z)
    (W W' : list (list Z)) (T k : nat) (enc : list (list (list R)))
    (eb : list (list (list Z))) :
  previous_input s = None -> Forall2 (layer_rowwise R) ls Ms ->
  length W = length W' -> rect T W -> rect T W' ->
  Forall (fun ws => exists w, ws !! 0 = Some w /\ w <> pad) W ->
  Forall (fun ws => exists w, ws !! 0 = Some w /\ w <> pad) W' ->
  map (take k) W = map (take k) W' ->
  forall i i' x x' a a' saved saved' calls calls'
         out aout sout cout out' aout' sout' cout',
    length x = length W -> length x' = length W' -> rect T x -> rect T x' ->
    map (take k) x = map (take k) x' ->
    run_layers R fadd s enc (decoder_bias_of pad W (length W) T) eb ls i
      (x, a, saved, calls) = Ok (out, aout, sout, cout) ->
    run_layers R fadd s enc (decoder_bias_of pad W' (length W') T) eb ls i'
      (x', a', saved', calls') = Ok (out', aout', sout', cout') ->
    map (take k) out = map (take k) out' /\
    map length out = map length x /\ map length out' = map length x'.
Proof.
  intros Hs HF HlW HW HW' Hf Hf' HpW.
  induction HF as [|l M ls Ms Hl HF IH];
    intros i i' x x' a a' saved saved' calls calls'
           out aout sout cout out' aout' sout' cout' Hlx Hlx' Hx Hx' Hpx; simpl.
  - intros [= <- _ _ _] [= <- _ _ _]. done.
  - rewrite !(prev_layer_input_of_None R s _ Hs). simpl.
    destruct (DecoderLayer_run R fadd l x enc _ eb None)
      as [[[[ans attn] al] cs]|] eqn:Hrun; simpl; [|done].
    destruct (DecoderLayer_run R fadd l x' enc _ eb None)
      as [[[[ans' attn'] al'] cs']|] eqn:Hrun'; simpl; [|done].
    destruct (layer_prefix l M pad W W' T k x x' enc eb _ _ _ _ _ _ _ _
                Hl Hlx Hlx' HlW Hx Hx' HW HW' Hf Hf' Hpx HpW Hrun Hrun')
      as (Hp & Hd & Hd').
    intros Hrest Hrest'.
    destruct (IH _ _ _ _ _ _ _ _ _ _ _ _ _ _ _ _ _ _
                ltac:(by rewrite (length_map_length _ _ Hd))
                ltac:(by rewrite (length_map_length _ _ Hd'))
                (rect_map_length T _ _ Hd Hx) (rect_map_length T _ _ Hd' Hx')
                Hp Hrest Hrest') as (Hq & He & He').
    split; [done|]. split; congruence.
Qed.

Lemma transpose01_take_eq {A} (B k : nat) (t t' : list (list A)) :
  rect B t -> rect B t' -> t <> [] -> t' <> [] ->
  take k t = take k t' ->
  map (take k) (transpose01 t) = map (take k) (transpose01 t').
Proof.
  intros Hr Hr' Hne Hne' E. unfold transpose01.
  rewrite !(size1_rect B), !map_map by done.
  apply map_ext_in. intros j Hj%in_seq.
  rewrite !(take_column B) by (done || lia). by rewrite E.
Qed.

Lemma lookup_transpose01_prefix {A} (i : nat) (a a' : list (list A)) :
  map (take (S i)) a = map (take (S i)) a' -> map length a = map length a' ->
  transpose01 a !! i = transpose01 a' !! i.
Proof.
  intros E Hd.
  assert (Hs : size1 a = size1 a') by (by rewrite !size1_map_length, Hd).
  destruct (decide (i < size1 a)) as [Hi|Hi].
  - rewrite !lookup_transpose01 by lia. f_equal. apply column_ext.
    + by apply length_map_length.
    + intros b row row' Hb Hb'.
      pose proof (lookup_map_take (S i) b a a' row row' E Hb Hb') as Hrow.
      rewrite <- (lookup_take_lt row (S i) i), <- (lookup_take_lt row' (S i) i)
        by lia.
      by rewrite Hrow.
  - rewrite !lookup_transpose01_ge by lia. done.
Qed.

Lemma first_words_not_padding (pad : Z) (B : nat) (t : list (list token))
    (row0 : list token) :
  rect B t -> t !! 0 = Some row0 ->
  Forall (fun tk => word tk <> pad) row0 ->
  Forall (fun ws => exists w, ws !! 0 = Some w /\ w <> pad)
    (transpose01 (select_word t)).
Proof.
  intros Hr H0 Hrow. apply Forall_lookup. intros b ws Hb.
  assert (Hne : select_word t <> []) by (destruct t; done).
  pose proof (rect_select_word B t Hr) as Hrw.
  assert (HbB : b < B).
  { apply lookup_lt_Some in Hb.
    by rewrite length_transpose01, (size1_rect B) in Hb. }
  rewrite lookup_transpose01 in Hb by (rewrite (size1_rect B); done).
  injection Hb as <-. rewrite (lookup_column B) by done.
  unfold select_word. rewrite lookup_map, H0. simpl. rewrite lookup_map.
  assert (Hl : length row0 = B).
  { unfold rect in Hr. rewrite Forall_lookup in Hr. by apply (Hr 0). }
  destruct (lookup_lt_is_Some_2 row0 b) as [tk Htk]; [lia|].
  rewrite Htk. simpl. exists (word tk). split; [done|].
  rewrite Forall_lookup in Hrow. by apply (Hrow b).
Qed.

(** C9: without cache, the output at position [i] is the same for two
    targets of one shape that agree up to position [i], when no batch
    entry of the target starts with the padding word.  The kernels act
    position by position, dropout is disabled, and the attention has an
    additive bias: the context of a query depends on the query, on the keys
    and on its bias row, and on a row that allows a key on the allowed keys
    only. *)
Theorem causal_masking_open_rows (dec : TransformerDecoder R) Ms ef nf
    (tgt tgt' : list (list token)) (mb : list (list (list R)))
    (s : TransformerDecoderState R) (o o' : forward_out R) (B i : nat)
    (row0 : list token) :
  decoder_rowwise R dec Ms ef nf ->
  previous_input s = None ->
  rect B tgt -> rect B tgt' -> 0 < B ->
  length tgt = length tgt' ->
  take (S i) tgt = take (S i) tgt' ->
  tgt !! 0 = Some row0 ->
  Forall (fun tk => word tk <> word_padding_idx R (embeddings R dec)) row0 ->
  forward_body R fadd dec tgt mb s = Ok o ->
  forward_body R fadd dec tgt' mb s = Ok o' ->
  out_outputs R o !! i = out_outputs R o' !! i.
Proof.
  intros [HL HE HN] Hs Hr Hr' HB Hlen Htake H0 Hrow Hf Hf'.
  assert (H0' : tgt' !! 0 = Some row0).
  { rewrite <- (lookup_take_lt tgt' (S i) 0), <- Htake by lia.
    by rewrite lookup_take_lt by lia. }
  assert (Hne : tgt <> []) by (intros ->; done).
  assert (Hne' : tgt' <> []) by (intros ->; done).
  apply forward_body_inv in Hf
    as (t1 & output & attn & saved & calls & Hc & Hrun & Hst & ->).
  apply forward_body_inv in Hf'
    as (t1' & output' & attn' & saved' & calls' & Hc' & Hrun' & Hst' & ->).
  apply forward_checks_history in Hc. apply forward_checks_history in Hc'.
  rewrite Hs in Hc, Hc'. simpl in Hc, Hc'. subst t1 t1'. simpl.
  unfold decoder_input in Hrun, Hrun'. rewrite Hs, HE in Hrun, Hrun'.
  unfold self_bias in Hrun, Hrun'.
  fold (src_len_of tgt) in Hrun. fold (src_len_of tgt') in Hrun'.
  rewrite (src_len_rect B) in Hrun, Hrun' by done.
  unfold size0 in Hrun, Hrun'. rewrite <- Hlen in Hrun'.
  pose proof (rect_select_word B tgt Hr) as Hrw.
  pose proof (rect_select_word B tgt' Hr') as Hrw'.
  assert (Hsw : select_word tgt <> []) by (destruct tgt; done).
  assert (Hsw' : select_word tgt' <> []) by (destruct tgt'; done).
  assert (Hie : forall t : list (list token), t <> [] ->
            imap (fun i row => map (ef i) row) t <> []).
  { intros t Ht E. apply (f_equal length) in E. rewrite length_imap in E.
    destruct t; done. }
  assert (HlW : length (transpose01 (select_word tgt))
                = length (transpose01 (select_word tgt'))).
  { by rewrite !length_transpose01, !(size1_rect B). }
  assert (HrW : rect (length tgt) (transpose01 (select_word tgt))).
  { pose proof (rect_transpose01 B _ Hrw) as H.
    unfold select_word in H at 1. by rewrite length_map in H. }
  assert (HrW' : rect (length tgt) (transpose01 (select_word tgt'))).
  { pose proof (rect_transpose01 B _ Hrw') as H.
    unfold select_word in H at 1. by rewrite length_map, <- Hlen in H. }
  assert (HpW : map (take (S i)) (transpose01 (select_word tgt))
                = map (take (S i)) (transpose01 (select_word tgt'))).
  { apply (transpose01_take_eq B); [done..|].
    unfold select_word. by rewrite <- !map_take, Htake. }
  assert (Hlx : length (transpose01 (imap (fun i row => map (ef i) row) tgt))
                = length (transpose01 (select_word tgt))).
  { by rewrite !length_transpose01, size1_imap_map, size1_select_word. }
  assert (Hlx' : length (transpose01 (imap (fun i row => map (ef i) row) tgt'))
                 = length (transpose01 (select_word tgt'))).
  { by rewrite !length_transpose01, size1_imap_map, size1_select_word. }
  assert (Hx : rect (length tgt)
                 (transpose01 (imap (fun i row => map (ef i) row) tgt))).
  { pose proof (rect_transpose01 B _ (rect_imap_map B ef tgt Hr)) as H.
    by rewrite length_imap in H. }
  assert (Hx' : rect (length tgt)
                  (transpose01 (imap (fun i row => map (ef i) row) tgt'))).
  { pose proof (rect_transpose01 B _ (rect_imap_map B ef tgt' Hr')) as H.
    by rewrite length_imap, <- Hlen in H. }
  assert (Hpx : map (take (S i))
                  (transpose01 (imap (fun i row => map (ef i) row) tgt))
                = map (take (S i))
                    (transpose01 (imap (fun i row => map (ef i) row) tgt'))).
  { apply (transpose01_take_eq B);
      [by apply rect_imap_map|by apply rect_imap_map|by apply Hie
      |by apply Hie|].
    by rewrite !take_imap, Htake. }
  destruct (run_layers_prefix s (layer_stack R dec) Ms
              (word_padding_idx R (embeddings R dec))
              (transpose01 (select_word tgt)) (transpose01 (select_word tgt'))
              (length tgt) (S i) (transpose01 mb) (cross_bias R dec s) Hs HL
              HlW HrW HrW'
              (first_words_not_padding _ B tgt row0 Hr H0 Hrow)
              (first_words_not_padding _ B tgt' row0 Hr' H0' Hrow) HpW
              _ _ _ _ _ _ _ _ _ _ _ _ _ _ _ _ _ _
              Hlx Hlx' Hx Hx' Hpx Hrun Hrun') as (Hq & Hd & Hd').
  rewrite !HN. apply lookup_transpose01_prefix.
  - rewrite !map_map.
    assert (Hm : forall out : list (list (list R)),
              map (fun x => take (S i) (map nf x)) out
              = map (map nf) (map (take (S i)) out)).
    { intros out. rewrite map_map. apply map_ext. intros x.
      symmetry. apply map_take. }
    by rewrite !Hm, Hq.
  - rewrite !map_map.
    assert (Hm : forall out : list (list (list R)),
              map (fun x => length (map nf x)) out = map length out).
    { intros out. apply map_ext. intros x. apply length_map. }
    rewrite !Hm, Hd, Hd'.
    rewrite (map_length_rect (length tgt) _ Hx), (map_length_rect (length tgt) _ Hx').
    by rewrite Hlx, Hlx', HlW.
Qed.
End RowwiseProperties.

(** ** The attention with an additive bias of the small instance *)

Lemma foldr_max_nonpos (d : Z) (l : list Z) :
  (d <= 0)%Z -> Forall (fun v => (v <= 0)%Z) l -> (foldr Z.max d l <= 0)%Z.
Proof.
  intros Hd Hl. induction Hl as [|v l Hv Hl IH]; simpl; [done|]. lia.
Qed.

Lemma foldr_max_zero (d : Z) (l : list Z) :
  (d <= 0)%Z -> Forall (fun v => (v <= 0)%Z) l ->
  d = 0%Z \/ (exists j, l !! j = Some 0%Z) ->
  foldr Z.max d l = 0%Z.
Proof.
  intros Hd Hl. induction Hl as [|v l Hv Hl IH]; simpl; intros H0.
  - destruct H0 as [->|[j Hj]]; done.
  - pose proof (foldr_max_nonpos d l Hd Hl) as Hle.
    destruct (decide (v = 0%Z)) as [->|Hne]; [lia|].
    rewrite IH; [lia|].
    destruct H0 as [->|[[|j] Hj]]; [by left| |right; by exists j].
    simpl in Hj. by injection Hj.
Qed.

Lemma shift_open (klen : nat) (brow : list Z) :
  open_row klen brow -> Small.shift (take klen brow) = take klen brow.
Proof.
  intros [(j & Hj & H0) Hall]. unfold Small.shift.
  assert (Hle : Forall (fun v => (v <= 0)%Z) (take klen brow)).
  { apply Forall_take. eapply Forall_impl; [exact Hall|].
    intros v [->| ->]; unfold neg_inf; lia. }
  rewrite foldr_max_zero; [| |done|].
  - rewrite <- (map_id (take klen brow)) at 2. apply map_ext. intros v. simpl.
    lia.
  - destruct (take klen brow) as [|v l] eqn:E; simpl; [lia|].
    by apply Forall_cons in Hle as [Hv _].
  - right. exists j. by rewrite lookup_take_lt.
Qed.

Lemma allowed_take {A} (keys : list A) (brow : list Z) :
  allowed keys (take (length keys) brow) = allowed keys brow.
Proof.
  revert brow. induction keys as [|k keys IH]; intros [|v brow]; simpl; try done.
  rewrite IH. done.
Qed.

Lemma small_soft_attention_rowwise :
  attends_rowwise Z Small.soft_attention
    (fun q keys brow =>
       Small.attend_row q
         (allowed keys (Small.shift (take (length keys) brow)))).
Proof.
  split; [intros q m h b; reflexivity|].
  intros qv keys keys' brow brow' Ho Ho' E.
  by rewrite (shift_open _ _ Ho), (shift_open _ _ Ho'), !allowed_take, E.
Qed.

Lemma small_soft_layer_rowwise : layer_rowwise Z Small.soft_layer Small.soft_model.
Proof.
  split; simpl; try apply small_soft_attention_rowwise;
    try (intros x; unfold pointwise; symmetry; apply map_map_id);
    try (intros x; symmetry; apply map_map_id); try done.
Qed.

Lemma small_soft_decoder_rowwise (n : nat) :
  decoder_rowwise Z (Small.soft_decoder n) (replicate n Small.soft_model)
    Small.embed_token id.
Proof.
  split; simpl.
  - induction n as [|n IH]; simpl; constructor;
      auto using small_soft_layer_rowwise.
  - intros t. reflexivity.
  - intros x. symmetry. apply map_map_id.
Qed.

Lemma causal_masking_open_rows_witness :
  exists o o',
    forward_body Z Z.add (Small.soft_decoder 2) Small.tgt0 Small.memory_bank0
      (init_state Small.src0) = Ok o /\
    forward_body Z Z.add (Small.soft_decoder 2) Small.tgt0' Small.memory_bank0
      (init_state Small.src0) = Ok o' /\
    out_outputs Z o !! 1 = out_outputs Z o' !! 1 /\
    out_outputs Z o !! 2 <> out_outputs Z o' !! 2.
Proof.
  destruct (forward_body Z Z.add (Small.soft_decoder 2) Small.tgt0
              Small.memory_bank0 (init_state Small.src0)) as [o|e] eqn:E;
    [|vm_compute in E; discriminate E].
  destruct (forward_body Z Z.add (Small.soft_decoder 2) Small.tgt0'
              Small.memory_bank0 (init_state Small.src0)) as [o'|e] eqn:E';
    [|vm_compute in E'; discriminate E'].
  exists o, o'. split; [reflexivity|]. split; [reflexivity|]. split.
  - exact (causal_masking_open_rows Z Z.add (Small.soft_decoder 2)
             (replicate 2 Small.soft_model) Small.embed_token id
             Small.tgt0 Small.tgt0' Small.memory_bank0 (init_state Small.src0)
             o o' 2 1 [Small.tok 2; Small.tok 3]
             (small_soft_decoder_rowwise 2) eq_refl
             ltac:(repeat constructor) ltac:(repeat constructor)
             ltac:(lia) eq_refl eq_refl eq_refl
             ltac:(repeat constructor; discriminate) E E').
  - vm_compute in E. vm_compute in E'.
    injection E as <-. injection E' as <-. vm_compute. discriminate.
Defined.
